(** * The per-node script sandbox of the CYOA editor (Editor/script.py)

    A shallow embedding of [LuaScriptSandbox]: the Python values the sandbox
    receives, the Lua values and tables that lupa exposes to Python, the
    injection of node and player state into a fresh environment table, the
    guarded wrapper around [load]/[pcall], and the extraction of results.

    The Lua interpreter is an external dependency (lupa).  The sandbox is
    therefore written against an interface [LuaInterp]; a small interpreter
    for a fragment of Lua, [MiniLua], instantiates it for the statements that
    are about concrete scripts. *)

From Stdlib Require Import ZArith Lia Ascii.
From stdpp Require Import base option numbers list strings pretty gmap fin_maps.

Set Warnings "-register-all".

Local Open Scope Z_scope.
Local Open Scope string_scope.
Local Open Scope list_scope.

(** ** Lua values, as they cross the lupa boundary *)

(** Floats are left out; functions are named by the library entry they are;
    [LPyObj l] is a Python object wrapped as userdata (lupa wraps every
    Python object that is not None, a bool, a number or a string). *)
Inductive LuaVal : Type :=
  | LNil
  | LBool (b : bool)
  | LInt (n : Z)
  | LStr (s : string)
  | LTable (r : nat)
  | LFunc (name : string)
  | LPyObj (l : nat).

#[global] Instance LuaVal_eq_dec : EqDecision LuaVal.
Proof. solve_decision. Defined.

Definition LuaVal_code (v : LuaVal) : (unit + bool) + (Z + string) + (nat + (string + nat)) :=
  match v with
  | LNil => inl (inl (inl tt))
  | LBool b => inl (inl (inr b))
  | LInt n => inl (inr (inl n))
  | LStr s => inl (inr (inr s))
  | LTable r => inr (inl r)
  | LFunc f => inr (inr (inl f))
  | LPyObj l => inr (inr (inr l))
  end.

Definition LuaVal_decode (c : (unit + bool) + (Z + string) + (nat + (string + nat))) : LuaVal :=
  match c with
  | inl (inl (inl _)) => LNil
  | inl (inl (inr b)) => LBool b
  | inl (inr (inl n)) => LInt n
  | inl (inr (inr s)) => LStr s
  | inr (inl r) => LTable r
  | inr (inr (inl f)) => LFunc f
  | inr (inr (inr l)) => LPyObj l
  end.

#[global] Instance LuaVal_countable : Countable LuaVal.
Proof.
  apply (inj_countable' LuaVal_code LuaVal_decode).
  intros v; destruct v; reflexivity.
Defined.

(** A Lua table: a finite map from values to non-nil values. *)
Abbreviation LuaTable := (gmap LuaVal LuaVal).

Definition tbl_get (t : LuaTable) (k : LuaVal) : LuaVal := default LNil (t !! k).

(** Storing nil removes the key, as in Lua. *)
Definition tbl_set (t : LuaTable) (k v : LuaVal) : LuaTable :=
  match v with
  | LNil => delete k t
  | _ => <[k := v]> t
  end.

(** ** Python values *)

(** JSON-shaped Python data: scalars, and references to dicts and lists that
    live in a heap.  [PyLuaTable] and [PyLuaFunc] are the handles lupa
    returns for a Lua table and a Lua function. *)
Inductive PyVal : Type :=
  | PyNone
  | PyBool (b : bool)
  | PyInt (n : Z)
  | PyStr (s : string)
  | PyRef (l : nat)
  | PyLuaTable (r : nat)
  | PyLuaFunc (name : string).

#[global] Instance PyVal_eq_dec : EqDecision PyVal.
Proof. solve_decision. Defined.

Inductive PyObj : Type :=
  | PyDict (d : gmap string PyVal)
  | PyList (xs : list PyVal).

#[global] Instance PyObj_eq_dec : EqDecision PyObj.
Proof. solve_decision. Defined.

Inductive PyExn : Type :=
  | AttributeError
  | KeyError (k : string)
  | TypeError
  | LuaError (msg : string).

Definition exn_str (e : PyExn) : string :=
  match e with
  | AttributeError => "AttributeError"
  | KeyError k => "'" +:+ k +:+ "'"
  | TypeError => "TypeError"
  | LuaError msg => msg
  end.

(** ** The world: the Lua runtime's tables, the Python heap, standard output *)

(** [lua_heap] is the state of [self.lua], the single runtime the sandbox
    object keeps for all its calls; table 0 is the runtime's global table. *)
Record World : Type := mkWorld {
  lua_heap : list LuaTable;
  py_heap : list PyObj;
  stdout : list string
}.

Definition set_lua_heap (h : list LuaTable) (w : World) : World :=
  mkWorld h (py_heap w) (stdout w).
Definition set_py_heap (h : list PyObj) (w : World) : World :=
  mkWorld (lua_heap w) h (stdout w).
Definition py_print (line : string) (w : World) : World :=
  mkWorld (lua_heap w) (py_heap w) (stdout w ++ [line]).

(** What a Python computation does: return, raise, never return, or leave the
    part of Python and lupa that is embedded here. *)
Inductive Res (A : Type) : Type :=
  | Ret (a : A) (w : World)
  | Raise (e : PyExn) (w : World)
  | Hang
  | Unsupported.
Arguments Ret {A} a w.
Arguments Raise {A} e w.
Arguments Hang {A}.
Arguments Unsupported {A}.

Definition M (A : Type) : Type := World -> Res A.

#[global] Instance M_ret : MRet M := fun A a w => Ret a w.
#[global] Instance M_bind : MBind M := fun A B f m w =>
  match m w with
  | Ret a w' => f a w'
  | Raise e w' => Raise e w'
  | Hang => Hang
  | Unsupported => Unsupported
  end.

Definition raise {A} (e : PyExn) : M A := fun w => Raise e w.
Definition unsupported {A} : M A := fun _ => Unsupported.
Definition get_world : M World := fun w => Ret w w.
Definition put_world (w : World) : M unit := fun _ => Ret tt w.
Definition lift_opt {A} (o : option A) : M A :=
  match o with Some a => mret a | None => unsupported end.

(** ** lupa: conversions between Python and Lua values *)

Definition lua_Integer_range (n : Z) : bool :=
  ((- 2 ^ 63 <=? n) && (n <? 2 ^ 63))%Z.

(** [py_to_lua]: None, bools, integers and strings are copied, any other
    object is passed by reference.  Integers outside [lua_Integer] are not
    embedded. *)
Definition py_to_lua (v : PyVal) : option LuaVal :=
  match v with
  | PyNone => Some LNil
  | PyBool b => Some (LBool b)
  | PyInt n => if lua_Integer_range n then Some (LInt n) else None
  | PyStr s => Some (LStr s)
  | PyRef l => Some (LPyObj l)
  | PyLuaTable r => Some (LTable r)
  | PyLuaFunc f => Some (LFunc f)
  end.

Definition py_from_lua (v : LuaVal) : PyVal :=
  match v with
  | LNil => PyNone
  | LBool b => PyBool b
  | LInt n => PyInt n
  | LStr s => PyStr s
  | LPyObj l => PyRef l
  | LTable r => PyLuaTable r
  | LFunc f => PyLuaFunc f
  end.

(** ** Python operations used by [execute] *)

(** [obj.get(key, default)]; [None] stands for the default, which the caller
    supplies. *)
Definition py_get (obj : PyVal) (key : string) : M (option PyVal) := fun w =>
  match obj with
  | PyRef l =>
      match py_heap w !! l with
      | Some (PyDict d) => Ret (d !! key) w
      | Some (PyList _) => Raise AttributeError w
      | None => Unsupported
      end
  | PyLuaTable _ | PyLuaFunc _ => Unsupported
  | _ => Raise AttributeError w
  end.

(** [obj.items()] (and [obj.keys()]) of a dict. *)
Definition py_items (obj : PyVal) : M (gmap string PyVal) := fun w =>
  match obj with
  | PyRef l =>
      match py_heap w !! l with
      | Some (PyDict d) => Ret d w
      | Some (PyList _) => Raise AttributeError w
      | None => Unsupported
      end
  | PyLuaTable _ | PyLuaFunc _ => Unsupported
  | _ => Raise AttributeError w
  end.

Definition chars_of (s : string) : list PyVal :=
  (fun c => PyStr (String c EmptyString)) <$> String.list_ascii_of_string s.

(** [for x in obj]: the elements of a list, the keys of a dict, the
    characters of a string. *)
Definition py_iter (obj : PyVal) : M (list PyVal) := fun w =>
  match obj with
  | PyRef l =>
      match py_heap w !! l with
      | Some (PyDict d) => Ret ((fun kv => PyStr kv.1) <$> map_to_list d) w
      | Some (PyList xs) => Ret xs w
      | None => Unsupported
      end
  | PyStr s => Ret (chars_of s) w
  | PyLuaTable _ | PyLuaFunc _ => Unsupported
  | _ => Raise TypeError w
  end.

(** [choice['id']].  Identifiers that are not strings are not embedded. *)
Definition py_getitem_id (choice : PyVal) : M string := fun w =>
  match choice with
  | PyRef l =>
      match py_heap w !! l with
      | Some (PyDict d) =>
          match d !! "id" with
          | Some (PyStr s) => Ret s w
          | Some _ => Unsupported
          | None => Raise (KeyError "id") w
          end
      | Some (PyList _) => Raise TypeError w
      | None => Unsupported
      end
  | PyLuaTable _ | PyLuaFunc _ => Unsupported
  | _ => Raise TypeError w
  end.

(** ** LuaScriptSandbox *)

Record LuaScriptSandbox : Type := mkSandbox {
  cur_node : PyVal;
  player_data : PyVal
}.

(** [str.replace('-', '_')] *)
Fixpoint replace_hyphens (s : string) : string :=
  match s with
  | EmptyString => EmptyString
  | String c s' =>
      String (if Ascii.eqb c "-"%char then "_"%char else c) (replace_hyphens s')
  end.

(** [_to_lua_safe_id]; [str(original_id)] is the identifier itself for the
    string identifiers embedded here. *)
Definition to_lua_safe_id (original_id : string) : string :=
  replace_hyphens original_id.

(** [f"choice_{safe_id}"] *)
Definition flag_name (safe_id : string) : string := "choice_" +:+ safe_id.

(** *** Step 1: the white-room environment *)

Definition white_room_names : list string :=
  ["math"; "string"; "table"; "pairs"; "ipairs"; "tonumber"; "tostring"; "print"].

(** The table constructor [{ math = math, ..., print = print }], evaluated in
    the runtime's global scope [G]. *)
Definition white_room (G : LuaTable) : LuaTable :=
  foldl (fun t x => tbl_set t (LStr x) (tbl_get G (LStr x))) ∅ white_room_names.

(** *** Step 2: context injection *)

(** [self.lua.table_from(xs)] on the elements of a sequence: element [i] is
    stored under the index [i+1]; a nil element leaves a hole. *)
Fixpoint table_from_seq (i : Z) (xs : list PyVal) (t : LuaTable) : option LuaTable :=
  match xs with
  | [] => Some t
  | x :: xs' =>
      match py_to_lua x with
      | Some v => table_from_seq (i + 1) xs' (tbl_set t (LInt i) v)
      | None => None
      end
  end.

Definition table_from_map (d : gmap string PyVal) : option LuaTable :=
  map_fold (fun k v acc =>
              match acc, py_to_lua v with
              | Some t, Some lv => Some (tbl_set t (LStr k) lv)
              | _, _ => None
              end) (Some ∅) d.

(** [self.lua.table_from(obj)], with [None] for the default [[]]. *)
Definition table_from (obj : option PyVal) : M LuaTable := fun w =>
  match obj with
  | None => Ret ∅ w
  | Some (PyRef l) =>
      match py_heap w !! l with
      | Some (PyDict d) => lift_opt (table_from_map d) w
      | Some (PyList xs) => lift_opt (table_from_seq 1 xs ∅) w
      | None => Unsupported
      end
  | Some (PyStr s) => lift_opt (table_from_seq 1 (chars_of s) ∅) w
  | Some (PyLuaTable _) | Some (PyLuaFunc _) => Unsupported
  | Some _ => Raise TypeError w
  end.

(** [for k, v in self.player_data.items(): sandbox_env[k] = v] *)
Definition inject_player (d : gmap string PyVal) (env : LuaTable) : option LuaTable :=
  map_fold (fun k v acc =>
              match acc, py_to_lua v with
              | Some t, Some lv => Some (tbl_set t (LStr k) lv)
              | _, _ => None
              end) (Some env) d.

(** The loop over the choices: it fills [choice_map] and sets one flag per
    choice in the environment. *)
Fixpoint inject_choices (choices : list PyVal)
    (choice_map : gmap string string) (env : LuaTable)
    : M (gmap string string * LuaTable) :=
  match choices with
  | [] => mret (choice_map, env)
  | choice :: rest =>
      real_id ← py_getitem_id choice;
      let safe_id := to_lua_safe_id real_id in
      inject_choices rest (<[safe_id := real_id]> choice_map)
                     (tbl_set env (LStr (flag_name safe_id)) (LBool true))
  end.

(** Steps 1 and 2 of [execute].  The environment table is reachable from
    Python only until the wrapper is called, so it is built as a value and
    stored in the runtime when it is complete; it gets the reference the
    table constructor allocated, the table of choices the next one. *)
Definition prepare (self : LuaScriptSandbox)
    : M (nat * gmap string string) :=
  w ← get_world;
  G ← lift_opt (lua_heap w !! 0%nat);
  let env_ref := length (lua_heap w) in
  let env0 := white_room G in
  url ← py_get (cur_node self) "url";
  url_l ← lift_opt (py_to_lua (default (PyStr "") url));
  let env1 := tbl_set env0 (LStr "url") url_l in
  description ← py_get (cur_node self) "description";
  description_l ← lift_opt (py_to_lua (default (PyStr "") description));
  let env2 := tbl_set env1 (LStr "description") description_l in
  choices ← py_get (cur_node self) "choices";
  choices_tbl ← table_from choices;
  let env3 := tbl_set env2 (LStr "choices") (LTable (S env_ref)) in
  items ← py_items (player_data self);
  env4 ← lift_opt (inject_player items env3);
  choices' ← py_get (cur_node self) "choices";
  cs ← from_option py_iter (mret []) choices';
  '(choice_map, env5) ← inject_choices cs ∅ env4;
  _ ← put_world (set_lua_heap (lua_heap w ++ [env5; choices_tbl]) w);
  mret (env_ref, choice_map).

(** ** The interpreter behind [self.lua] *)

(** [load(code, "user_script", "t", env)] compiles without running. *)
Inductive LoadRes (C : Type) : Type :=
  | Loaded (c : C)
  | LoadError (err : string)
  | LoadUnsupported.
Arguments Loaded {C} c.
Arguments LoadError {C} err.
Arguments LoadUnsupported {C}.

(** [pcall(chunk)]: the chunk ends, or raises a Lua error that [pcall]
    catches, or never ends, or the host fails with an exception that is not a
    Lua error. *)
Inductive PcallRes : Type :=
  | PReturn (w : World)
  | PError (res : LuaVal) (w : World)
  | PHang
  | PCrash (e : PyExn) (w : World)
  | PUnsupported.

Record LuaInterp : Type := mkInterp {
  chunk : Type;
  lua_load : string -> LoadRes chunk;
  lua_pcall : chunk -> nat -> World -> PcallRes;
  lua_tostring : LuaVal -> string
}.

(** What Python sees of the call [safe_wrapper(sandbox_env, user_script)]:
    the pair [(true, env)], the pair [(false, message)], or an exception. *)
Inductive WrapRes : Type :=
  | WTrue (w : World)
  | WFalse (msg : string) (w : World)
  | WRaise (e : PyExn) (w : World)
  | WHang
  | WUnsupported.

(** The result record of a successful call. *)
Record ExecResult : Type := mkResult {
  r_url : PyVal;
  r_description : PyVal;
  r_player_data : gmap string PyVal;
  r_choices_visibility : gmap string PyVal
}.

#[global] Instance ExecResult_eq_dec : EqDecision ExecResult.
Proof. solve_decision. Defined.

Section Sandbox.

Variable L : LuaInterp.

(** *** Step 3: the wrapper, a Lua function of [env] and [code] *)
Definition safe_wrapper (env : nat) (code : string) (w : World) : WrapRes :=
  match lua_load L code with
  | LoadError err => WFalse ("Syntax Error: " +:+ lua_tostring L (LStr err)) w
  | LoadUnsupported => WUnsupported
  | Loaded c =>
      match lua_pcall L c env w with
      | PReturn w' => WTrue w'
      | PError res w' => WFalse ("Runtime Error: " +:+ lua_tostring L res) w'
      | PHang => WHang
      | PCrash e w' => WRaise e w'
      | PUnsupported => WUnsupported
      end
  end.

(** *** Step 4: extraction and reverse mapping *)

(** [for k in self.player_data.keys(): new_player_data[k] = updated_env[k]] *)
Definition new_player_data (updated_env : LuaTable) (keys : gmap string PyVal)
    : gmap string PyVal :=
  map_imap (fun k _ => Some (py_from_lua (tbl_get updated_env (LStr k)))) keys.

(** [for safe_id, real_id in choice_map.items():
       choice_bools[real_id] = updated_env[f"choice_{safe_id}"]] *)
Definition choice_bools (updated_env : LuaTable) (choice_map : gmap string string)
    : gmap string PyVal :=
  map_fold (fun safe_id real_id acc =>
              <[real_id := py_from_lua (tbl_get updated_env (LStr (flag_name safe_id)))]> acc)
           ∅ choice_map.

Definition extract (self : LuaScriptSandbox) (env : nat)
    (choice_map : gmap string string) : M (option ExecResult) :=
  w ← get_world;
  updated_env ← lift_opt (lua_heap w !! env);
  keys ← py_items (player_data self);
  mret (Some {| r_url := py_from_lua (tbl_get updated_env (LStr "url"));
                r_description := py_from_lua (tbl_get updated_env (LStr "description"));
                r_player_data := new_player_data updated_env keys;
                r_choices_visibility := choice_bools updated_env choice_map |}).

(** The [try] around the wrapper call, the test of [success], and the
    extraction that follows. *)
Definition run_wrapper (self : LuaScriptSandbox) (sandbox_env : nat)
    (choice_map : gmap string string) (user_script : string)
    : M (option ExecResult) := fun w =>
  match safe_wrapper sandbox_env user_script w with
  | WRaise e w' => Ret None (py_print ("Sandbox Crash: " +:+ exn_str e) w')
  | WFalse result_or_error w' => Ret None (py_print result_or_error w')
  | WTrue w' => extract self sandbox_env choice_map w'
  | WHang => Hang
  | WUnsupported => Unsupported
  end.

(** *** execute *)
Definition execute (self : LuaScriptSandbox) (user_script : string)
    : M (option ExecResult) :=
  '(sandbox_env, choice_map) ← prepare self;
  run_wrapper self sandbox_env choice_map user_script.

End Sandbox.

(** * MiniLua: an interpreter for a fragment of Lua 5.4

    The fragment: global variables, integers, strings without escapes,
    booleans and nil, table and wrapped-object indexing, calls, the operators
    [+ - * < <= > >= == ~= and or not], assignment, [if] and [while].  A
    script that leaves the fragment is reported as outside the embedding
    ([LoadUnsupported], [PUnsupported]), never as a Lua error. *)

Module MiniLua.

(** ** Lexer *)

Inductive token : Type :=
  | TName (x : string)
  | TKw (k : string)
  | TInt (n : Z)
  | TString (s : string)
  | TSym (s : string).

#[global] Instance token_eq_dec : EqDecision token.
Proof. solve_decision. Defined.

Definition code_in (lo hi : nat) (c : ascii) : bool :=
  let n := nat_of_ascii c in (Nat.leb lo n && Nat.leb n hi)%bool.

Definition is_digit (c : ascii) : bool := code_in 48 57 c.
Definition is_name_start (c : ascii) : bool :=
  (code_in 97 122 c || code_in 65 90 c || Ascii.eqb c "_"%char)%bool.
Definition is_name_char (c : ascii) : bool := (is_name_start c || is_digit c)%bool.
Definition is_space (c : ascii) : bool :=
  let n := nat_of_ascii c in
  (Nat.eqb n 32 || Nat.eqb n 9 || Nat.eqb n 10 || Nat.eqb n 13)%bool.
Definition is_newline (c : ascii) : bool := Nat.eqb (nat_of_ascii c) 10.

Fixpoint span (p : ascii -> bool) (cs : list ascii) : list ascii * list ascii :=
  match cs with
  | c :: r => if p c then let '(a, b) := span p r in (c :: a, b) else ([], cs)
  | [] => ([], [])
  end.

Definition keywords : list string :=
  ["and"; "break"; "do"; "else"; "elseif"; "end"; "false"; "for"; "function";
   "goto"; "if"; "in"; "local"; "nil"; "not"; "or"; "repeat"; "return";
   "then"; "true"; "until"; "while"].

Definition word_token (s : string) : token :=
  if bool_decide (s ∈ keywords) then TKw s else TName s.

Definition digit_value (c : ascii) : Z := Z.of_nat (nat_of_ascii c) - 48.
Definition decimal (ds : list ascii) : Z :=
  foldl (fun acc c => 10 * acc + digit_value c) 0 ds.

Definition one_char_symbols : list ascii :=
  ["+"; "-"; "*"; "<"; ">"; "="; "("; ")"; "["; "]"; "."; ","; ";"]%char.

(** [None]: the text leaves the fragment (floats, escapes, long brackets,
    operators that are not embedded, unfinished strings). *)
Fixpoint lex (fuel : nat) (cs : list ascii) : option (list token) :=
  match fuel with
  | O => None
  | S fuel' =>
      match cs with
      | [] => Some []
      | c :: r =>
          if is_space c then lex fuel' r
          else if is_name_start c then
            let '(w, r') := span is_name_char cs in
            cons (word_token (String.string_of_list_ascii w)) <$> lex fuel' r'
          else if is_digit c then
            let '(ds, r') := span is_digit cs in
            match r' with
            | c' :: _ =>
                if (is_name_char c' || Ascii.eqb c' "."%char)%bool then None
                else cons (TInt (decimal ds)) <$> lex fuel' r'
            | [] => Some [TInt (decimal ds)]
            end
          else if (Ascii.eqb c "'"%char || Nat.eqb (nat_of_ascii c) 34)%bool then
            let '(body, r') :=
              span (fun x => negb (Ascii.eqb x c || is_newline x
                                   || Nat.eqb (nat_of_ascii x) 92)) r in
            match r' with
            | q :: r'' =>
                if Ascii.eqb q c
                then cons (TString (String.string_of_list_ascii body)) <$> lex fuel' r''
                else None
            | [] => None
            end
          else
            match c, r with
            | "-"%char, "-"%char :: r2 =>
                match r2 with
                | "["%char :: _ => None
                | _ => lex fuel' (span (fun x => negb (is_newline x)) r2).2
                end
            | "="%char, "="%char :: r2 => cons (TSym "==") <$> lex fuel' r2
            | "~"%char, "="%char :: r2 => cons (TSym "~=") <$> lex fuel' r2
            | "<"%char, "="%char :: r2 => cons (TSym "<=") <$> lex fuel' r2
            | ">"%char, "="%char :: r2 => cons (TSym ">=") <$> lex fuel' r2
            | "<"%char, "<"%char :: _ => None
            | ">"%char, ">"%char :: _ => None
            | "."%char, c' :: _ =>
                if (Ascii.eqb c' "."%char || is_digit c')%bool then None
                else cons (TSym ".") <$> lex fuel' r
            | "["%char, c' :: _ =>
                if (Ascii.eqb c' "["%char || Ascii.eqb c' "="%char)%bool then None
                else cons (TSym "[") <$> lex fuel' r
            | _, _ =>
                if bool_decide (c ∈ one_char_symbols)
                then cons (TSym (String c EmptyString)) <$> lex fuel' r
                else None
            end
      end
  end.

Definition tokenize (code : string) : option (list token) :=
  let cs := String.list_ascii_of_string code in
  lex (S (length cs)) cs.

(** ** Syntax *)

Inductive binop : Type :=
  | OAdd | OSub | OMul | OLt | OLe | OGt | OGe | OEq | ONe.

Inductive expr : Type :=
  | ENil
  | EBool (b : bool)
  | EInt (n : Z)
  | EStr (s : string)
  | EVar (x : string)
  | EIndex (e k : expr)
  | ECall (f : expr) (args : list expr)
  | EBin (op : binop) (a b : expr)
  | EAnd (a b : expr)
  | EOr (a b : expr)
  | ENot (a : expr)
  | ENeg (a : expr).

Inductive stat : Type :=
  | SAssign (x : string) (e : expr)
  | SSetIndex (t k e : expr)
  | SCall (f : expr) (args : list expr)
  | SIf (c : expr) (th el : list stat)
  | SWhile (c : expr) (body : list stat).

(** ** Parser, after the recursive descent of Lua's own [lparser.c] *)

(** [PSyntax]: the text ends where Lua still needs a token, a syntax error
    of Lua.  [PUnsup]: the text leaves the fragment. *)
Inductive PRes (A : Type) : Type :=
  | POk (a : A) (rest : list token)
  | PSyntax
  | PUnsup.
Arguments POk {A} a rest.
Arguments PSyntax {A}.
Arguments PUnsup {A}.

Definition pbind {A B} (m : PRes A) (k : A -> list token -> PRes B) : PRes B :=
  match m with
  | POk a r => k a r
  | PSyntax => PSyntax
  | PUnsup => PUnsup
  end.

Definition expect {A} (t : token) (toks : list token) (k : list token -> PRes A)
    : PRes A :=
  match toks with
  | [] => PSyntax
  | t' :: r => if bool_decide (t' = t) then k r else PUnsup
  end.

(** The binary operators with their priorities (left and right priorities
    coincide for the operators of the fragment). *)
Definition binop_of (t : token) : option ((expr -> expr -> expr) * nat) :=
  match t with
  | TKw "or" => Some (EOr, 1%nat)
  | TKw "and" => Some (EAnd, 2%nat)
  | TSym "<" => Some (EBin OLt, 3%nat)
  | TSym "<=" => Some (EBin OLe, 3%nat)
  | TSym ">" => Some (EBin OGt, 3%nat)
  | TSym ">=" => Some (EBin OGe, 3%nat)
  | TSym "==" => Some (EBin OEq, 3%nat)
  | TSym "~=" => Some (EBin ONe, 3%nat)
  | TSym "+" => Some (EBin OAdd, 10%nat)
  | TSym "-" => Some (EBin OSub, 10%nat)
  | TSym "*" => Some (EBin OMul, 11%nat)
  | _ => None
  end.

Definition unary_priority : nat := 12.

Fixpoint subexpr (fuel : nat) (limit : nat) (toks : list token) {struct fuel}
    : PRes expr :=
  match fuel with
  | O => PUnsup
  | S f =>
      pbind (match toks with
             | TKw "not" :: r => pbind (subexpr f unary_priority r) (fun a r' => POk (ENot a) r')
             | TSym "-" :: r => pbind (subexpr f unary_priority r) (fun a r' => POk (ENeg a) r')
             | _ => simpleexp f toks
             end)
            (fun e r => binloop f limit e r)
  end
with binloop (fuel : nat) (limit : nat) (e : expr) (toks : list token) {struct fuel}
    : PRes expr :=
  match fuel with
  | O => PUnsup
  | S f =>
      match toks with
      | t :: r =>
          match binop_of t with
          | Some (mk, prio) =>
              if Nat.ltb limit prio
              then pbind (subexpr f prio r) (fun rhs r' => binloop f limit (mk e rhs) r')
              else POk e toks
          | None => POk e toks
          end
      | [] => POk e []
      end
  end
with simpleexp (fuel : nat) (toks : list token) {struct fuel} : PRes expr :=
  match fuel with
  | O => PUnsup
  | S f =>
      match toks with
      | TInt n :: r => POk (EInt n) r
      | TString s :: r => POk (EStr s) r
      | TKw "nil" :: r => POk ENil r
      | TKw "true" :: r => POk (EBool true) r
      | TKw "false" :: r => POk (EBool false) r
      | _ => suffixedexp f toks
      end
  end
with suffixedexp (fuel : nat) (toks : list token) {struct fuel} : PRes expr :=
  match fuel with
  | O => PUnsup
  | S f =>
      match toks with
      | TName x :: r => suffixes f (EVar x) r
      | TSym "(" :: r =>
          pbind (subexpr f 0 r) (fun e r' =>
            expect (TSym ")") r' (fun r'' => suffixes f e r''))
      | [] => PSyntax
      | _ => PUnsup
      end
  end
with suffixes (fuel : nat) (e : expr) (toks : list token) {struct fuel} : PRes expr :=
  match fuel with
  | O => PUnsup
  | S f =>
      match toks with
      | TSym "." :: TName k :: r => suffixes f (EIndex e (EStr k)) r
      | TSym "." :: [] => PSyntax
      | TSym "." :: _ => PUnsup
      | TSym "[" :: r =>
          pbind (subexpr f 0 r) (fun k r' =>
            expect (TSym "]") r' (fun r'' => suffixes f (EIndex e k) r''))
      | TSym "(" :: r =>
          pbind (arglist f r) (fun args r' => suffixes f (ECall e args) r')
      | TString _ :: _ => PUnsup
      | _ => POk e toks
      end
  end
with arglist (fuel : nat) (toks : list token) {struct fuel} : PRes (list expr) :=
  match fuel with
  | O => PUnsup
  | S f =>
      match toks with
      | TSym ")" :: r => POk [] r
      | _ => pbind (subexpr f 0 toks) (fun e r => arglist_rest f [e] r)
      end
  end
with arglist_rest (fuel : nat) (acc : list expr) (toks : list token) {struct fuel}
    : PRes (list expr) :=
  match fuel with
  | O => PUnsup
  | S f =>
      match toks with
      | TSym "," :: r =>
          pbind (subexpr f 0 r) (fun e r' => arglist_rest f (acc ++ [e]) r')
      | TSym ")" :: r => POk acc r
      | [] => PSyntax
      | _ => PUnsup
      end
  end.

Fixpoint block (fuel : nat) (toks : list token) {struct fuel} : PRes (list stat) :=
  match fuel with
  | O => PUnsup
  | S f =>
      match toks with
      | [] => POk [] []
      | TKw "end" :: _ | TKw "else" :: _ | TKw "elseif" :: _ => POk [] toks
      | TSym ";" :: r => block f r
      | _ => pbind (statement f toks) (fun s r =>
               pbind (block f r) (fun b r' => POk (s :: b) r'))
      end
  end
with statement (fuel : nat) (toks : list token) {struct fuel} : PRes stat :=
  match fuel with
  | O => PUnsup
  | S f =>
      match toks with
      | TKw "if" :: r => test_then_block f r
      | TKw "while" :: r =>
          pbind (subexpr f 0 r) (fun c r1 =>
            expect (TKw "do") r1 (fun r2 =>
              pbind (block f r2) (fun b r3 =>
                expect (TKw "end") r3 (fun r4 => POk (SWhile c b) r4))))
      | _ =>
          pbind (suffixedexp f toks) (fun e r =>
            match r with
            | TSym "=" :: r1 =>
                match e with
                | EVar x => pbind (subexpr f 0 r1) (fun rhs r2 => POk (SAssign x rhs) r2)
                | EIndex t k =>
                    pbind (subexpr f 0 r1) (fun rhs r2 => POk (SSetIndex t k rhs) r2)
                | _ => PUnsup
                end
            | [] =>
                match e with
                | ECall fn args => POk (SCall fn args) []
                | _ => PSyntax
                end
            | _ =>
                match e with
                | ECall fn args => POk (SCall fn args) r
                | _ => PUnsup
                end
            end)
      end
  end
with test_then_block (fuel : nat) (toks : list token) {struct fuel} : PRes stat :=
  match fuel with
  | O => PUnsup
  | S f =>
      pbind (subexpr f 0 toks) (fun c r1 =>
        expect (TKw "then") r1 (fun r2 =>
          pbind (block f r2) (fun th r3 =>
            match r3 with
            | TKw "end" :: r4 => POk (SIf c th []) r4
            | TKw "else" :: r4 =>
                pbind (block f r4) (fun el r5 =>
                  expect (TKw "end") r5 (fun r6 => POk (SIf c th el) r6))
            | TKw "elseif" :: r4 =>
                pbind (test_then_block f r4) (fun s r5 => POk (SIf c th [s]) r5)
            | [] => PSyntax
            | _ => PUnsup
            end)))
  end.

(** [load]'s compilation of a whole chunk. *)
Definition parse (code : string) : PRes (list stat) :=
  match tokenize code with
  | None => PUnsup
  | Some toks =>
      match block (4 * length toks + 16) toks with
      | POk b [] => POk b []
      | POk _ (_ :: _) => PUnsup
      | PSyntax => PSyntax
      | PUnsup => PUnsup
      end
  end.

(** ** Evaluation *)

Inductive LRes (A : Type) : Type :=
  | LOk (a : A) (w : World)
  | LErr (v : LuaVal) (w : World)
  | LUnsup.
Arguments LOk {A} a w.
Arguments LErr {A} v w.
Arguments LUnsup {A}.

Definition lbind {A B} (m : LRes A) (k : A -> World -> LRes B) : LRes B :=
  match m with
  | LOk a w => k a w
  | LErr v w => LErr v w
  | LUnsup => LUnsup
  end.

Definition type_name (v : LuaVal) : string :=
  match v with
  | LNil => "nil"
  | LBool _ => "boolean"
  | LInt _ => "number"
  | LStr _ => "string"
  | LTable _ => "table"
  | LFunc _ => "function"
  | LPyObj _ => "userdata"
  end.

Definition truthy (v : LuaVal) : bool :=
  match v with
  | LNil | LBool false => false
  | _ => true
  end.

(** Integer arithmetic wraps around at 64 bits. *)
Definition wrap64 (z : Z) : Z := (z + 2 ^ 63) mod 2 ^ 64 - 2 ^ 63.

(** The text of Lua's error messages is abbreviated: no chunk name, line
    number or variable name. *)
Definition type_error (what : string) (v : LuaVal) : LuaVal :=
  LStr ("attempt to " +:+ what +:+ " a " +:+ type_name v +:+ " value").

(** [b[k]].  A wrapped Python dict is read by item ([obj[key]]); a missing
    key is a KeyError, which lupa turns into a Lua error. *)
Definition index (b k : LuaVal) (w : World) : LRes LuaVal :=
  match b with
  | LTable r =>
      match lua_heap w !! r with
      | Some t => LOk (tbl_get t k) w
      | None => LUnsup
      end
  | LPyObj l =>
      match py_heap w !! l with
      | Some (PyDict d) =>
          match k with
          | LStr s =>
              match d !! s with
              | Some v =>
                  match py_to_lua v with
                  | Some lv => LOk lv w
                  | None => LUnsup
                  end
              | None => LErr (LStr ("KeyError: " +:+ s)) w
              end
          | _ => LErr (LStr "KeyError") w
          end
      | _ => LUnsup
      end
  | LStr _ => LUnsup
  | _ => LErr (type_error "index" b) w
  end.

(** [b[k] = v].  On a wrapped Python dict this is [obj[key] = value] on
    the dict itself. *)
Definition setindex (b k v : LuaVal) (w : World) : LRes unit :=
  match b with
  | LTable r =>
      match lua_heap w !! r with
      | Some t =>
          match k with
          | LNil => LErr (LStr "table index is nil") w
          | _ => LOk tt (set_lua_heap (<[r := tbl_set t k v]> (lua_heap w)) w)
          end
      | None => LUnsup
      end
  | LPyObj l =>
      match py_heap w !! l, k with
      | Some (PyDict d), LStr s =>
          LOk tt (set_py_heap (<[l := PyDict (<[s := py_from_lua v]> d)]> (py_heap w)) w)
      | _, _ => LUnsup
      end
  | LStr _ => LUnsup
  | _ => LErr (type_error "index" b) w
  end.

Definition tostring (v : LuaVal) : option string :=
  match v with
  | LNil => Some "nil"
  | LBool true => Some "true"
  | LBool false => Some "false"
  | LInt n => Some (pretty n)
  | LStr s => Some s
  | _ => None
  end.

Definition tab : string := String (ascii_of_nat 9) EmptyString.

Fixpoint join (sep : string) (ss : list string) : string :=
  match ss with
  | [] => ""
  | [s] => s
  | s :: r => s +:+ sep +:+ join sep r
  end.

(** [f(args)]: of the library, [print] and [tostring] are embedded. *)
Definition call (f : LuaVal) (args : list LuaVal) (w : World) : LRes LuaVal :=
  match f with
  | LFunc "print" =>
      match mapM tostring args with
      | Some ss => LOk LNil (py_print (join tab ss) w)
      | None => LUnsup
      end
  | LFunc "tostring" =>
      match args with
      | v :: _ =>
          match tostring v with
          | Some s => LOk (LStr s) w
          | None => LUnsup
          end
      | [] => LErr (LStr "bad argument #1 to 'tostring' (value expected)") w
      end
  | LFunc _ => LUnsup
  | LPyObj _ => LUnsup
  | _ => LErr (type_error "call" f) w
  end.

Definition arith (op : binop) (x y : Z) : LuaVal :=
  match op with
  | OAdd => LInt (wrap64 (x + y))
  | OSub => LInt (wrap64 (x - y))
  | OMul => LInt (wrap64 (x * y))
  | OLt => LBool (x <? y)%Z
  | OLe => LBool (x <=? y)%Z
  | OGt => LBool (y <? x)%Z
  | OGe => LBool (y <=? x)%Z
  | OEq => LBool (x =? y)%Z
  | ONe => LBool (negb (x =? y)%Z)
  end.

Definition no_metamethod (v : LuaVal) : bool :=
  match v with
  | LNil | LBool _ | LTable _ | LFunc _ => true
  | _ => false
  end.

Definition binary (op : binop) (a b : LuaVal) (w : World) : LRes LuaVal :=
  match op with
  | OEq | ONe =>
      match a, b with
      | LPyObj _, LPyObj _ => LUnsup
      | _, _ =>
          LOk (LBool (if op is OEq then bool_decide (a = b)
                      else negb (bool_decide (a = b)))) w
      end
  | OAdd | OSub | OMul =>
      match a, b with
      | LInt x, LInt y => LOk (arith op x y) w
      | _, _ =>
          if no_metamethod a then LErr (type_error "perform arithmetic on" a) w
          else if no_metamethod b then
            match a with
            | LInt _ => LErr (type_error "perform arithmetic on" b) w
            | _ => LUnsup
            end
          else LUnsup
      end
  | _ =>
      match a, b with
      | LInt x, LInt y => LOk (arith op x y) w
      | LPyObj _, _ | _, LPyObj _ => LUnsup
      | LStr _, LStr _ => LUnsup
      | _, _ => LErr (LStr ("attempt to compare " +:+ type_name a +:+ " with "
                            +:+ type_name b)) w
      end
  end.

Fixpoint eval (e : expr) (env : nat) (w : World) {struct e} : LRes LuaVal :=
  match e with
  | ENil => LOk LNil w
  | EBool b => LOk (LBool b) w
  | EInt n => if lua_Integer_range n then LOk (LInt n) w else LUnsup
  | EStr s => LOk (LStr s) w
  | EVar x =>
      match lua_heap w !! env with
      | Some t => LOk (tbl_get t (LStr x)) w
      | None => LUnsup
      end
  | EIndex b k =>
      lbind (eval b env w) (fun bv w1 =>
        lbind (eval k env w1) (fun kv w2 => index bv kv w2))
  | ECall f args =>
      lbind (eval f env w) (fun fv w1 =>
        lbind ((fix eval_args (es : list expr) (w : World) : LRes (list LuaVal) :=
                  match es with
                  | [] => LOk [] w
                  | a :: r =>
                      lbind (eval a env w) (fun v w' =>
                        lbind (eval_args r w') (fun vs w'' => LOk (v :: vs) w''))
                  end) args w1)
              (fun avs w2 => call fv avs w2))
  | EBin op a b =>
      lbind (eval a env w) (fun va w1 =>
        lbind (eval b env w1) (fun vb w2 => binary op va vb w2))
  | EAnd a b =>
      lbind (eval a env w) (fun va w1 =>
        if truthy va then eval b env w1 else LOk va w1)
  | EOr a b =>
      lbind (eval a env w) (fun va w1 =>
        if truthy va then LOk va w1 else eval b env w1)
  | ENot a => lbind (eval a env w) (fun va w1 => LOk (LBool (negb (truthy va))) w1)
  | ENeg a =>
      lbind (eval a env w) (fun va w1 =>
        match va with
        | LInt x => LOk (LInt (wrap64 (- x))) w1
        | _ => if no_metamethod va
               then LErr (type_error "perform arithmetic on" va) w1
               else LUnsup
        end)
  end.

(** The outcome of a statement; [SHang]: the fuel ran out. *)
Inductive SRes : Type :=
  | SOk (w : World)
  | SErr (v : LuaVal) (w : World)
  | SHang
  | SUnsup.

Definition sbind {A} (m : LRes A) (k : A -> World -> SRes) : SRes :=
  match m with
  | LOk a w => k a w
  | LErr v w => SErr v w
  | LUnsup => SUnsup
  end.

Fixpoint exec_block (fuel : nat) (b : list stat) (env : nat) (w : World)
    {struct fuel} : SRes :=
  match fuel with
  | O => SHang
  | S f =>
      match b with
      | [] => SOk w
      | s :: r =>
          match exec_stat f s env w with
          | SOk w' => exec_block f r env w'
          | other => other
          end
      end
  end
with exec_stat (fuel : nat) (s : stat) (env : nat) (w : World)
    {struct fuel} : SRes :=
  match fuel with
  | O => SHang
  | S f =>
      match s with
      | SAssign x e =>
          sbind (eval e env w) (fun v w1 =>
            match lua_heap w1 !! env with
            | Some t =>
                SOk (set_lua_heap (<[env := tbl_set t (LStr x) v]> (lua_heap w1)) w1)
            | None => SUnsup
            end)
      | SSetIndex t k e =>
          sbind (eval t env w) (fun tv w1 =>
            sbind (eval k env w1) (fun kv w2 =>
              sbind (eval e env w2) (fun v w3 =>
                sbind (setindex tv kv v w3) (fun _ w4 => SOk w4))))
      | SCall fn args => sbind (eval (ECall fn args) env w) (fun _ w1 => SOk w1)
      | SIf c th el =>
          sbind (eval c env w) (fun cv w1 =>
            exec_block f (if truthy cv then th else el) env w1)
      | SWhile c body =>
          sbind (eval c env w) (fun cv w1 =>
            if truthy cv then
              match exec_block f body env w1 with
              | SOk w2 => exec_stat f (SWhile c body) env w2
              | other => other
              end
            else SOk w1)
      end
  end.

(** ** The runtime that [LuaRuntime()] creates *)

Definition lib (name : string) (members : list string) : LuaTable :=
  list_to_map ((fun m => (LStr m, LFunc (name +:+ "." +:+ m))) <$> members).

Definition base_functions : list string :=
  ["assert"; "collectgarbage"; "dofile"; "error"; "getmetatable"; "ipairs";
   "load"; "loadfile"; "next"; "pairs"; "pcall"; "print"; "rawequal";
   "rawget"; "rawlen"; "rawset"; "require"; "select"; "setmetatable";
   "tonumber"; "tostring"; "type"; "xpcall"].

(** Table 0 holds the globals; the libraries follow.  Float constants
    ([math.pi], [math.huge]) are left out with the floats. *)
Definition globals : LuaTable :=
  list_to_map
    ([(LStr "_G", LTable 0); (LStr "math", LTable 1); (LStr "string", LTable 2);
      (LStr "table", LTable 3); (LStr "io", LTable 4); (LStr "os", LTable 5);
      (LStr "python", LTable 6)]
     ++ ((fun f => (LStr f, LFunc f)) <$> base_functions)).

Definition new_runtime : list LuaTable :=
  [ globals;
    lib "math" ["abs"; "ceil"; "floor"; "fmod"; "max"; "min"; "modf"; "random";
                "randomseed"; "sqrt"; "tointeger"; "type"; "ult"];
    lib "string" ["byte"; "char"; "dump"; "find"; "format"; "gmatch"; "gsub";
                  "len"; "lower"; "match"; "rep"; "reverse"; "sub"; "upper"];
    lib "table" ["concat"; "insert"; "move"; "pack"; "remove"; "sort"; "unpack"];
    lib "io" ["close"; "lines"; "open"; "popen"; "read"; "write"];
    lib "os" ["execute"; "exit"; "getenv"; "remove"; "rename"; "time"; "tmpname"];
    lib "python" ["as_attrgetter"; "as_function"; "as_itemgetter"; "builtins";
                  "eval"; "iter"; "iterex"; "enumerate"] ].

(** What [tostring] gives for the value an error carries; the address that
    Lua prints for a table or a function is left out. *)
Definition error_text (v : LuaVal) : string :=
  default (type_name v) (tostring v).

Definition load (code : string) : LoadRes (list stat) :=
  match parse code with
  | POk b _ => Loaded b
  | PSyntax => LoadError "unexpected symbol near <eof>"
  | PUnsup => LoadUnsupported
  end.

Definition pcall (fuel : nat) (c : list stat) (env : nat) (w : World) : PcallRes :=
  match exec_block fuel c env w with
  | SOk w' => PReturn w'
  | SErr v w' => PError v w'
  | SHang => PHang
  | SUnsup => PUnsupported
  end.

Definition interp (fuel : nat) : LuaInterp :=
  {| chunk := list stat;
     lua_load := load;
     lua_pcall := pcall fuel;
     lua_tostring := error_text |}.

End MiniLua.

(** [LuaScriptSandbox(node, player)] over a Python heap, with standard output
    empty and a new runtime in [self.lua]. *)
Definition new_world (heap : list PyObj) : World :=
  mkWorld MiniLua.new_runtime heap [].

(** * Statements *)

(** The identifiers of the node's choices, in the order of the list. *)
Fixpoint choice_ids (choices : list PyVal) : M (list string) :=
  match choices with
  | [] => mret []
  | choice :: rest =>
      real_id ← py_getitem_id choice;
      ids ← choice_ids rest;
      mret (real_id :: ids)
  end.

Definition node_choice_ids (self : LuaScriptSandbox) : M (list string) :=
  choices ← py_get (cur_node self) "choices";
  cs ← from_option py_iter (mret []) choices;
  choice_ids cs.

(** [choice_map] and the flags after the loop over the choices. *)
Definition choice_map_of (ids : list string) (m : gmap string string)
    : gmap string string :=
  foldl (fun m id => <[to_lua_safe_id id := id]> m) m ids.

Definition set_flags (ids : list string) (env : LuaTable) : LuaTable :=
  foldl (fun t id => tbl_set t (LStr (flag_name (to_lua_safe_id id))) (LBool true))
        env ids.

Definition env_get (w : World) (env : nat) (name : string) : LuaVal :=
  from_option (fun t => tbl_get t (LStr name)) LNil (lua_heap w !! env).

(** The environment after the node context is injected. *)
Definition context_env (G : LuaTable) (url_l desc_l : LuaVal) (env : nat) : LuaTable :=
  tbl_set (tbl_set (tbl_set (white_room G) (LStr "url") url_l)
                   (LStr "description") desc_l)
          (LStr "choices") (LTable (S env)).

Definition flag_key (id : string) : LuaVal := LStr (flag_name (to_lua_safe_id id)).

(** ** Concrete inputs *)

(** The node and player variables of the module's own test. *)
Definition forest_heap : list PyObj :=
  [ PyDict {[ "url" := PyStr "https://forest.com";
              "description" := PyStr "The trees whisper.";
              "choices" := PyRef 1 ]};
    PyList [PyRef 2; PyRef 3];
    PyDict {[ "id" := PyStr "52cd4b74-08d2-4709-8804-e6fa6deebe36";
              "text" := PyStr "Stay" ]};
    PyDict {[ "id" := PyStr "3da81c9d-67bc-4419-ae5a-082c388a6d6d";
              "text" := PyStr "Run" ]};
    PyDict {[ "energy" := PyInt 20 ]} ].

Definition forest_sandbox : LuaScriptSandbox := mkSandbox (PyRef 0) (PyRef 4).

Definition conditional_visibility_script : string :=
"energy = energy + 10
if energy > 25 then
  choice_3da81c9d_67bc_4419_ae5a_082c388a6d6d = false
end".

(** A node whose only choice has no [id]. *)
Definition missing_id_heap : list PyObj :=
  [ PyDict {[ "choices" := PyRef 1 ]};
    PyList [PyRef 2];
    PyDict {[ "text" := PyStr "Stay" ]};
    PyDict ∅ ].

Definition missing_id_sandbox : LuaScriptSandbox := mkSandbox (PyRef 0) (PyRef 3).

(** A node with the choices [a-b] and [a_b], which share a safe name. *)
Definition collision_heap : list PyObj :=
  [ PyDict {[ "choices" := PyRef 1 ]};
    PyList [PyRef 2; PyRef 3];
    PyDict {[ "id" := PyStr "a-b" ]};
    PyDict {[ "id" := PyStr "a_b" ]};
    PyDict ∅ ].

Definition collision_sandbox : LuaScriptSandbox := mkSandbox (PyRef 0) (PyRef 4).

(** A player variable named like the flag of the choice [a]. *)
Definition flag_clash_heap : list PyObj :=
  [ PyDict {[ "choices" := PyRef 1 ]};
    PyList [PyRef 2];
    PyDict {[ "id" := PyStr "a" ]};
    PyDict {[ "choice_a" := PyInt 5 ]} ].

Definition flag_clash_sandbox : LuaScriptSandbox := mkSandbox (PyRef 0) (PyRef 3).

(** A script that leaves a mark in the [math] library table. *)
Definition marking_script : string :=
  "if math.seen then energy = 0 end math.seen = true".

(** A script that writes through a choice record. *)
Definition rewriting_script : string := "choices[1].text = 'Gone'".

(** Every entry of a reverse table is keyed by the safe name of its value. *)
Definition well_keyed (cm : gmap string string) : Prop :=
  forall s id, cm !! s = Some id -> to_lua_safe_id id = s.

(** Identifiers without underscores, such as UUIDs. *)
Fixpoint no_underscore (s : string) : bool :=
  match s with
  | EmptyString => true
  | String c s' => negb (Ascii.eqb c "_"%char) && no_underscore s'
  end.


(** What the caller observes of a computation, and the world it leaves. *)
Inductive Outcome (A : Type) : Type :=
  | Returned (a : A)
  | Raised (e : PyExn)
  | Hangs
  | NotEmbedded.
Arguments Returned {A} a.
Arguments Raised {A} e.
Arguments Hangs {A}.
Arguments NotEmbedded {A}.

Definition outcome {A} (r : Res A) : Outcome A :=
  match r with
  | Ret a _ => Returned a
  | Raise e _ => Raised e
  | Hang => Hangs
  | Unsupported => NotEmbedded
  end.

Definition world_after {A} (w : World) (r : Res A) : World :=
  match r with
  | Ret _ w' | Raise _ w' => w'
  | _ => w
  end.

(** A computation that reads the world and leaves it as it is. *)
Definition keeps_world {A} (m : M A) : Prop :=
  forall w, match m w with
            | Ret _ w' | Raise _ w' => w' = w
            | _ => True
            end.

Definition returns {A} (r : Res A) : bool :=
  match r with
  | Ret _ _ => true
  | _ => false
  end.

Definition hangs {A} (r : Res A) : bool :=
  match r with
  | Hang => true
  | _ => false
  end.

(** An observation of the record a successful call returns, and one of the
    world a call leaves. *)
Definition observe {A B} (f : A -> B) (r : Res (option A)) : option B :=
  match r with
  | Ret (Some a) _ => Some (f a)
  | _ => None
  end.

Definition observe_world {A B} (f : World -> B) (r : Res A) : option B :=
  match r with
  | Ret _ w | Raise _ w => Some (f w)
  | _ => None
  end.

(** ** Scripts that reach for a symbol *)





(** The names [execute] binds in the environment of a call. *)
Definition injected (d : gmap string PyVal) (ids : list string) (g : string) : Prop :=
  g ∈ white_room_names \/ g ∈ ["url"; "description"; "choices"] \/
  is_Some (d !! g) \/ LStr g ∈ flag_key <$> ids.


(** Every reference to a Lua table, in the runtime and in the Python heap,
    is to a table the runtime has. *)
Definition lua_below (n : nat) (v : LuaVal) : Prop :=
  match v with
  | LTable r => (r < n)%nat
  | _ => True
  end.

Definition py_below (n : nat) (v : PyVal) : Prop :=
  match v with
  | PyLuaTable r => (r < n)%nat
  | _ => True
  end.

Definition obj_below (n : nat) (o : PyObj) : Prop :=
  match o with
  | PyDict d => map_Forall (fun _ v => py_below n v) d
  | PyList xs => Forall (py_below n) xs
  end.

#[global] Instance lua_below_dec n v : Decision (lua_below n v).
Proof. destruct v; simpl; apply _. Defined.

#[global] Instance py_below_dec n v : Decision (py_below n v).
Proof. destruct v; simpl; apply _. Defined.

#[global] Instance obj_below_dec n o : Decision (obj_below n o).
Proof. destruct o; simpl; apply _. Defined.

Definition closed_world (w : World) : Prop :=
  Forall (map_Forall (fun _ v => lua_below (length (lua_heap w)) v)) (lua_heap w) /\
  Forall (obj_below (length (lua_heap w))) (py_heap w).

#[global] Instance closed_world_dec w : Decision (closed_world w).
Proof. unfold closed_world. apply _. Defined.

(** Two worlds with the same tables and the same Python objects. *)
Definition same_heaps (w w' : World) : Prop :=
  lua_heap w' = lua_heap w /\ py_heap w' = py_heap w.

(** The arguments of a call, evaluated from left to right. *)
Definition eval_args (env : nat) : list MiniLua.expr -> World -> MiniLua.LRes (list LuaVal) :=
  fix go (es : list MiniLua.expr) (w : World) : MiniLua.LRes (list LuaVal) :=
    match es with
    | [] => MiniLua.LOk [] w
    | a :: r =>
        MiniLua.lbind (MiniLua.eval a env w) (fun v w' =>
          MiniLua.lbind (go r w') (fun vs w'' => MiniLua.LOk (v :: vs) w''))
    end.

(** * The rest of the module *)

(** An identifier with a hyphen in it. *)
Fixpoint has_hyphen (s : string) : bool :=
  match s with
  | EmptyString => false
  | String c s' => Ascii.eqb c "-"%char || has_hyphen s'
  end.

(** A value on which [.get] and [.items] do not exist: a scalar or a list. *)
Definition not_a_dict (w : World) (v : PyVal) : Prop :=
  match v with
  | PyNone | PyBool _ | PyInt _ | PyStr _ => True
  | PyRef l => exists xs, py_heap w !! l = Some (PyList xs)
  | PyLuaTable _ | PyLuaFunc _ => False
  end.

(** [print(line)] *)
Definition print (line : string) : M unit := fun w => Ret tt (py_print line w).

(** [str(v)], as an f-string formats a scalar. *)
Definition py_str (v : PyVal) : option string :=
  match v with
  | PyNone => Some "None"
  | PyBool true => Some "True"
  | PyBool false => Some "False"
  | PyInt n => Some (pretty n)
  | PyStr s => Some s
  | _ => None
  end.

(** [d[key]] on a dict of the result. *)
Definition py_getitem (d : gmap string PyVal) (key : string) : M PyVal :=
  match d !! key with
  | Some v => mret v
  | None => raise (KeyError key)
  end.

Definition dquote : string := String (ascii_of_nat 34) EmptyString.

(** The script of the module's test, [user_lua]. *)
Definition user_lua : string :=
"
    energy = energy + 10
    description = " +:+ dquote +:+ "You feel energized by the forest." +:+ dquote +:+ "
    -- Disable the 'Run' choice if energy is high
    if energy > 25 then
        choice_3da81c9d_67bc_4419_ae5a_082c388a6d6d = false
    end
    ".

(** The test at the end of the module, on [node_data] and [player_vars] as
    [forest_heap] holds them. *)
Definition main (L : LuaInterp) : M unit :=
  results ← execute L forest_sandbox user_lua;
  match results with
  | Some r =>
      energy ← py_getitem (r_player_data r) "energy";
      energy_s ← lift_opt (py_str energy);
      _ ← print ("Energy: " +:+ energy_s);
      visible ← py_getitem (r_choices_visibility r)
                  "3da81c9d-67bc-4419-ae5a-082c388a6d6d";
      visible_s ← lift_opt (py_str visible);
      print ("Run Visible: " +:+ visible_s)
  | None => mret tt
  end.

(** A player variable named [url]. *)
Definition shadow_heap : list PyObj :=
  [ PyDict {[ "url" := PyStr "https://forest.com"; "choices" := PyRef 1 ]};
    PyList [];
    PyDict {[ "url" := PyStr "https://cave.com" ]} ].

Definition shadow_sandbox : LuaScriptSandbox := mkSandbox (PyRef 0) (PyRef 2).

(** A node with a description only, and no player variable. *)
Definition bare_heap : list PyObj :=
  [ PyDict {[ "description" := PyStr "A cave." ]}; PyDict ∅ ].

Definition bare_sandbox : LuaScriptSandbox := mkSandbox (PyRef 0) (PyRef 1).

(** A node whose list of choices holds a string in place of a record. *)
Definition string_choice_heap : list PyObj :=
  [ PyDict {[ "choices" := PyRef 1 ]}; PyList [PyStr "go"]; PyDict ∅ ].

Definition string_choice_sandbox : LuaScriptSandbox := mkSandbox (PyRef 0) (PyRef 2).

(** ** Inputs of the expected shape *)

(** A value lupa passes to Lua within the embedded fragment (every value but
    an integer outside [lua_Integer]). *)
Definition fits_lua (v : PyVal) : Prop := is_Some (py_to_lua v).

(** A choice as [execute] expects it: a dict with a string under [id]. *)
Definition choice_record (w : World) (c : PyVal) : Prop :=
  exists lc dc s, c = PyRef lc /\ py_heap w !! lc = Some (PyDict dc) /\
                  dc !! "id" = Some (PyStr s).

(** The node is a dict, and [cs] is its list of choices (empty when the
    node has none). *)
Definition node_choices (self : LuaScriptSandbox) (w : World) (cs : list PyVal) : Prop :=
  exists ln nd,
    cur_node self = PyRef ln /\ py_heap w !! ln = Some (PyDict nd) /\
    fits_lua (default (PyStr "") (nd !! "url")) /\
    fits_lua (default (PyStr "") (nd !! "description")) /\
    match nd !! "choices" with
    | None => cs = []
    | Some (PyRef lcs) => py_heap w !! lcs = Some (PyList cs)
    | Some _ => False
    end.

(** The player data is the dict [d]. *)
Definition player_vars (self : LuaScriptSandbox) (w : World) (d : gmap string PyVal)
    : Prop :=
  exists lp, player_data self = PyRef lp /\ py_heap w !! lp = Some (PyDict d) /\
             map_Forall (fun _ v => fits_lua v) d.

Definition well_shaped (self : LuaScriptSandbox) (w : World) : Prop :=
  is_Some (lua_heap w !! 0%nat) /\
  (exists cs, node_choices self w cs /\ Forall (choice_record w) cs) /\
  (exists d, player_vars self w d).

(** The Python objects of [w'] are those of [w], up to the entries of the
    dicts: a dict is still a dict, a list is the same list. *)
Definition same_kinds (w w' : World) : Prop :=
  forall l, match py_heap w !! l with
            | Some (PyDict _) => exists d', py_heap w' !! l = Some (PyDict d')
            | o => py_heap w' !! l = o
            end.

(** A node whose second choice has no [id]. *)
Definition second_missing_heap : list PyObj :=
  [ PyDict {[ "choices" := PyRef 1 ]};
    PyList [PyRef 2; PyRef 3; PyRef 2];
    PyDict {[ "id" := PyStr "a" ]};
    PyDict {[ "text" := PyStr "Run" ]};
    PyDict ∅ ].

Definition second_missing_sandbox : LuaScriptSandbox := mkSandbox (PyRef 0) (PyRef 4).

(** ** Objects out of a script's reach *)

(** No value of the dict or list [o] is the Python object at [lp]. *)
Definition obj_avoids (lp : nat) (o : PyObj) : Prop :=
  match o with
  | PyDict d => map_Forall (fun _ v => v ≠ PyRef lp) d
  | PyList xs => Forall (fun v => v ≠ PyRef lp) xs
  end.

#[global] Instance obj_avoids_dec lp o : Decision (obj_avoids lp o).
Proof. destruct o; simpl; apply _. Defined.

(** The Python object at [lp] is held by no table of the runtime and by no
    dict or list of the heap. *)
Definition py_hidden (lp : nat) (w : World) : Prop :=
  Forall (map_Forall (fun _ v => v ≠ LPyObj lp)) (lua_heap w) /\
  Forall (obj_avoids lp) (py_heap w).

#[global] Instance py_hidden_dec lp w : Decision (py_hidden lp w).
Proof. unfold py_hidden. apply _. Defined.

(** * Properties *)

(** ** Tables *)

Lemma tbl_get_set t k v k' :
  tbl_get (tbl_set t k v) k' = if decide (k = k') then v else tbl_get t k'.
Proof.
  unfold tbl_get, tbl_set.
  destruct (decide (k = k')) as [->|Hne].
  - destruct v; simpl; rewrite ?lookup_delete_eq, ?lookup_insert_eq; reflexivity.
  - destruct v; simpl; rewrite ?lookup_delete_ne, ?lookup_insert_ne by done; reflexivity.
Qed.

Lemma tbl_get_set_eq t k v : tbl_get (tbl_set t k v) k = v.
Proof. rewrite tbl_get_set. by rewrite decide_True. Qed.

Lemma tbl_get_set_ne t k v k' : k ≠ k' → tbl_get (tbl_set t k v) k' = tbl_get t k'.
Proof. intros. rewrite tbl_get_set. by rewrite decide_False. Qed.

Lemma tbl_get_empty k : tbl_get ∅ k = LNil.
Proof. unfold tbl_get. by rewrite lookup_empty. Qed.

(** ** The monad *)

Lemma bind_Ret {A B} (m : M A) (k : A -> M B) w b w' :
  (m ≫= k) w = Ret b w' -> exists a w1, m w = Ret a w1 /\ k a w1 = Ret b w'.
Proof.
  unfold mbind, M_bind. destruct (m w) as [a w1| | |]; try discriminate. eauto.
Qed.

Lemma lift_opt_Ret {A} (o : option A) w a w' :
  lift_opt o w = Ret a w' -> o = Some a /\ w' = w.
Proof. destruct o; simpl; [|discriminate]. intros [= -> ->]. done. Qed.

Lemma py_get_Ret obj key w v w' :
  py_get obj key w = Ret v w' ->
  w' = w /\ exists l d, obj = PyRef l /\ py_heap w !! l = Some (PyDict d) /\ v = d !! key.
Proof.
  unfold py_get. destruct obj; try discriminate.
  destruct (py_heap w !! l) as [[d|xs]|] eqn:E; try discriminate.
  intros [= <- <-]. eauto 10.
Qed.

Lemma py_items_Ret obj w d w' :
  py_items obj w = Ret d w' ->
  w' = w /\ exists l, obj = PyRef l /\ py_heap w !! l = Some (PyDict d).
Proof.
  unfold py_items. destruct obj; try discriminate.
  destruct (py_heap w !! l) as [[d'|xs]|] eqn:E; try discriminate.
  intros [= <- <-]. eauto.
Qed.

Lemma py_iter_Ret obj w xs w' : py_iter obj w = Ret xs w' -> w' = w.
Proof.
  unfold py_iter. destruct obj; try discriminate.
  - by intros [= _ ->].
  - destruct (py_heap w !! l) as [[d'|ys]|]; try discriminate; by intros [= _ ->].
Qed.

Lemma py_getitem_id_Ret c w s w' : py_getitem_id c w = Ret s w' -> w' = w.
Proof.
  unfold py_getitem_id. destruct c; try discriminate.
  destruct (py_heap w !! l) as [[d'|ys]|]; try discriminate.
  destruct (d' !! "id") as [[]|]; try discriminate. by intros [= _ ->].
Qed.

Lemma table_from_Ret o w t w' : table_from o w = Ret t w' -> w' = w.
Proof.
  unfold table_from. destruct o as [[]|]; try discriminate.
  - intros H. by apply lift_opt_Ret in H as [_ ->].
  - destruct (py_heap w !! l) as [[d'|ys]|]; try discriminate;
      intros H; by apply lift_opt_Ret in H as [_ ->].
  - by intros [= _ ->].
Qed.

Lemma inject_choices_Ret cs : forall cm env w cm' env' w',
  inject_choices cs cm env w = Ret (cm', env') w' ->
  w' = w /\ exists ids, choice_ids cs w = Ret ids w /\
    cm' = choice_map_of ids cm /\ env' = set_flags ids env.
Proof.
  induction cs as [|c cs IH]; intros cm env w cm' env' w' H; simpl in H.
  - injection H as <- <- <-. split; [done|]. exists []. done.
  - apply bind_Ret in H as (id & w1 & Hid & H).
    pose proof (py_getitem_id_Ret _ _ _ _ Hid) as ->.
    apply IH in H as (-> & ids & Hids & -> & ->).
    split; [done|]. exists (id :: ids). split; [|done].
    simpl. unfold mbind, M_bind. rewrite Hid, Hids. done.
Qed.


Lemma prepare_Ret self w env cm w1 :
  prepare self w = Ret (env, cm) w1 ->
  exists G url_l desc_l d ids env4 ctbl,
    lua_heap w !! 0%nat = Some G /\
    env = length (lua_heap w) /\
    py_items (player_data self) w = Ret d w /\
    node_choice_ids self w = Ret ids w /\
    inject_player d (context_env G url_l desc_l env) = Some env4 /\
    cm = choice_map_of ids ∅ /\
    w1 = set_lua_heap (lua_heap w ++ [set_flags ids env4; ctbl]) w.
Proof.
  unfold prepare. intros H.
  apply bind_Ret in H as (w0 & w0' & Hw & H). injection Hw as <- <-.
  apply bind_Ret in H as (G & ? & HG & H). apply lift_opt_Ret in HG as [HG ->].
  apply bind_Ret in H as (url & ? & Hurl & H). apply py_get_Ret in Hurl as [-> _].
  apply bind_Ret in H as (url_l & ? & Hul & H). apply lift_opt_Ret in Hul as [Hul ->].
  apply bind_Ret in H as (desc & ? & Hdesc & H). apply py_get_Ret in Hdesc as [-> _].
  apply bind_Ret in H as (desc_l & ? & Hdl & H). apply lift_opt_Ret in Hdl as [Hdl ->].
  apply bind_Ret in H as (choices & ? & Hch & H).
  pose proof (py_get_Ret _ _ _ _ _ Hch) as [-> _].
  apply bind_Ret in H as (ctbl & ? & Htf & H). apply table_from_Ret in Htf as ->.
  apply bind_Ret in H as (d & ? & Hit & H).
  pose proof (py_items_Ret _ _ _ _ Hit) as [-> _].
  apply bind_Ret in H as (env4 & ? & Hip & H). apply lift_opt_Ret in Hip as [Hip ->].
  apply bind_Ret in H as (choices' & ? & Hch' & H).
  pose proof (py_get_Ret _ _ _ _ _ Hch') as [-> _].
  apply bind_Ret in H as (cs & w2 & Hcs & H).
  assert (w2 = w) as ->.
  { destruct choices' as [c|]; simpl in Hcs.
    - by apply py_iter_Ret in Hcs.
    - by injection Hcs as _ ->. }
  apply bind_Ret in H as ([cm' env5] & w3 & Hic & H).
  apply inject_choices_Ret in Hic as (-> & ids & Hids & -> & ->).
  apply bind_Ret in H as ([] & w4 & Hput & H).
  injection Hput as <-. injection H as <- <- <-.
  exists G, url_l, desc_l, d, ids, env4, ctbl.
  repeat split; try done.
  unfold node_choice_ids, mbind, M_bind. rewrite Hch', Hcs. exact Hids.
Qed.

Lemma foldl_tbl_set_get {A} (key : A -> LuaVal) (val : A -> LuaVal) (xs : list A) :
  forall t k,
  (forall x, x ∈ xs -> val x ≠ LNil) ->
  (forall x y, x ∈ xs -> y ∈ xs -> key x = key y -> val x = val y) ->
  tbl_get (foldl (fun t x => tbl_set t (key x) (val x)) t xs) k =
  match list_find (fun x => key x = k) xs with
  | Some (_, x) => val x
  | None => tbl_get t k
  end.
Proof.
  induction xs as [|x xs IH]; intros t k Hnn Hfun; [done|].
  simpl. rewrite IH.
  - case_decide as Hd.
    + simpl. destruct (list_find _ xs) as [[i y]|] eqn:Hf; simpl.
      * apply list_find_Some in Hf as (Hy & Hky & _).
        symmetry. apply Hfun; [left|right; by eapply list_elem_of_lookup_2|congruence].
      * subst k. apply tbl_get_set_eq.
    + destruct (list_find _ xs) as [[i y]|] eqn:Hf; simpl; [done|].
      by apply tbl_get_set_ne.
  - intros y Hy. apply Hnn. by right.
  - intros y z Hy Hz. apply Hfun; by right.
Qed.

Lemma white_room_get G g :
  tbl_get (white_room G) (LStr g) =
  if bool_decide (g ∈ white_room_names) then tbl_get G (LStr g) else LNil.
Proof.
  unfold white_room, white_room_names. cbn [foldl].
  rewrite !tbl_get_set, tbl_get_empty.
  repeat (case_decide as Hd;
          [injection Hd as <-; rewrite bool_decide_eq_true_2;
           [done|set_solver]|revert Hd]).
  intros. rewrite bool_decide_eq_false_2; [done|].
  rewrite !elem_of_cons, elem_of_nil. intros Hin.
  repeat (destruct Hin as [->|Hin]; [congruence|]). done.
Qed.

Lemma white_room_get_other G k :
  (forall s, k ≠ LStr s) -> tbl_get (white_room G) k = LNil.
Proof.
  intros Hk. unfold white_room, white_room_names. cbn [foldl].
  rewrite !tbl_get_set, tbl_get_empty.
  repeat (case_decide as Hd; [by destruct (Hk _ (eq_sym Hd))|clear Hd]). done.
Qed.

Lemma inject_player_get d t t' :
  inject_player d t = Some t' ->
  forall k, tbl_get t' k =
    match k with
    | LStr s =>
        match d !! s with
        | Some v => default LNil (py_to_lua v)
        | None => tbl_get t k
        end
    | _ => tbl_get t k
    end.
Proof.
  unfold inject_player. revert t'.
  apply (map_fold_weak_ind (fun acc (m : gmap string PyVal) =>
    forall t', acc = Some t' ->
    forall k, tbl_get t' k =
      match k with
      | LStr s => match m !! s with
                  | Some v => default LNil (py_to_lua v)
                  | None => tbl_get t k
                  end
      | _ => tbl_get t k
      end)).
  - intros t' [= <-] k. destruct k; rewrite ?lookup_empty; done.
  - intros i x m r Hi IH t' Hr k.
    destruct r as [t0|]; [|discriminate].
    destruct (py_to_lua x) as [lv|] eqn:Hx; [|discriminate].
    injection Hr as <-. rewrite tbl_get_set.
    case_decide as Hd.
    + subst k. rewrite lookup_insert_eq, Hx. done.
    + rewrite (IH t0 eq_refl k). destruct k; try done.
      rewrite lookup_insert_ne; [done|congruence].
Qed.

Lemma inject_player_values d t t' :
  inject_player d t = Some t' ->
  forall k v, d !! k = Some v -> is_Some (py_to_lua v).
Proof.
  unfold inject_player. revert t'.
  apply (map_fold_weak_ind (fun acc (m : gmap string PyVal) =>
    forall t', acc = Some t' -> forall k v, m !! k = Some v -> is_Some (py_to_lua v))).
  - intros t' _ k v. by rewrite lookup_empty.
  - intros i x m r Hi IH t' Hr k v.
    destruct r as [t0|]; [|discriminate].
    destruct (py_to_lua x) as [lv|] eqn:Hx; [|discriminate].
    rewrite lookup_insert. case_decide.
    + intros [= <-]. rewrite Hx. eauto.
    + eauto.
Qed.


Lemma set_flags_get ids : forall t k,
  tbl_get (set_flags ids t) k =
  if bool_decide (k ∈ flag_key <$> ids) then LBool true else tbl_get t k.
Proof.
  induction ids as [|id ids IH] using rev_ind; intros t k.
  - done.
  - unfold set_flags in *. rewrite foldl_snoc, tbl_get_set, fmap_app.
    case_decide as Hd.
    + subst k. rewrite bool_decide_eq_true_2; [done|].
      apply elem_of_app. right. by apply list_elem_of_singleton.
    + rewrite IH. case_bool_decide as H1; case_bool_decide as H2; try done.
      * destruct H2. apply elem_of_app. by left.
      * destruct H1. apply elem_of_app in H2 as [H2|H2]; [done|].
        apply list_elem_of_singleton in H2. by destruct Hd.
Qed.

(** ** The reverse table *)

Lemma choice_map_of_snoc ids id m :
  choice_map_of (ids ++ [id]) m = <[to_lua_safe_id id := id]> (choice_map_of ids m).
Proof. unfold choice_map_of. by rewrite foldl_snoc. Qed.

Lemma choice_map_of_app l1 l2 m :
  choice_map_of (l1 ++ l2) m = choice_map_of l2 (choice_map_of l1 m).
Proof. unfold choice_map_of. by rewrite foldl_app. Qed.

(** Every entry maps a safe name to an identifier of the list that mangles
    to it. *)
Lemma choice_map_of_Some ids : forall s id,
  choice_map_of ids ∅ !! s = Some id -> id ∈ ids /\ to_lua_safe_id id = s.
Proof.
  induction ids as [|x ids IH] using rev_ind; intros s id.
  - unfold choice_map_of. simpl. by rewrite lookup_empty.
  - rewrite choice_map_of_snoc, lookup_insert. case_decide as Hd.
    + intros [= <-]. split; [|done]. apply elem_of_app. right.
      by apply list_elem_of_singleton.
    + intros H. apply IH in H as [Hin Hs]. split; [|done].
      apply elem_of_app. by left.
Qed.

(** Every identifier of the list has its safe name in the table. *)
Lemma choice_map_of_dom ids : forall id,
  id ∈ ids -> is_Some (choice_map_of ids ∅ !! to_lua_safe_id id).
Proof.
  induction ids as [|x ids IH] using rev_ind; intros id Hin.
  - by apply elem_of_nil in Hin.
  - rewrite choice_map_of_snoc, lookup_insert. case_decide; [eauto|].
    apply elem_of_app in Hin as [Hin|Hin]; [by apply IH|].
    apply list_elem_of_singleton in Hin. congruence.
Qed.

Lemma choice_map_of_skip l s : forall m,
  (forall z, z ∈ l -> to_lua_safe_id z ≠ s) ->
  choice_map_of l m !! s = m !! s.
Proof.
  induction l as [|x l IH]; intros m Hl; [done|].
  unfold choice_map_of in *. simpl. rewrite IH.
  - apply lookup_insert_ne. apply Hl. by left.
  - intros z Hz. apply Hl. by right.
Qed.

(** The later of two choices with the same safe name wins. *)
Lemma choice_map_of_last l1 y l2 :
  (forall z, z ∈ l2 -> to_lua_safe_id z ≠ to_lua_safe_id y) ->
  choice_map_of (l1 ++ y :: l2) ∅ !! to_lua_safe_id y = Some y.
Proof.
  intros Hl2. rewrite choice_map_of_app. change (y :: l2) with ([y] ++ l2).
  rewrite choice_map_of_app, choice_map_of_skip by done.
  unfold choice_map_of at 1. simpl. apply lookup_insert_eq.
Qed.

Lemma choice_map_of_size ids : forall m,
  (size (choice_map_of ids m) <= size m + length ids)%nat.
Proof.
  induction ids as [|x ids IH]; intros m; simpl.
  - unfold choice_map_of. simpl. lia.
  - unfold choice_map_of in *. simpl.
    specialize (IH (<[to_lua_safe_id x := x]> m)).
    rewrite map_size_insert in IH.
    destruct (m !! to_lua_safe_id x); cbv [id] in IH; lia.
Qed.

(** ** Extraction *)

Lemma choice_map_of_well_keyed ids : well_keyed (choice_map_of ids ∅).
Proof. intros s id H. by apply choice_map_of_Some in H as [_ ?]. Qed.

Lemma choice_bools_lookup t cm :
  well_keyed cm ->
  forall id, choice_bools t cm !! id =
    if decide (cm !! to_lua_safe_id id = Some id)
    then Some (py_from_lua (tbl_get t (flag_key id)))
    else None.
Proof.
  pose (P := fun (acc : gmap string PyVal) (m : gmap string string) =>
    well_keyed m ->
    forall id, acc !! id =
      if decide (m !! to_lua_safe_id id = Some id)
      then Some (py_from_lua (tbl_get t (flag_key id)))
      else None).
  enough (P (choice_bools t cm) cm) as H by exact H.
  unfold choice_bools. apply map_fold_weak_ind; unfold P; clear P.
  - intros _ id. rewrite lookup_empty. by rewrite decide_False.
  - intros s x m r Hs IH Hwk id.
    assert (to_lua_safe_id x = s) as Hx by (apply Hwk; apply lookup_insert_eq).
    assert (well_keyed m) as Hwk'.
    { intros s' id' H'. apply Hwk. rewrite lookup_insert_ne; [done|congruence]. }
    destruct (decide (x = id)) as [->|Hne].
    + rewrite lookup_insert_eq. rewrite Hx, lookup_insert_eq.
      rewrite decide_True by done. unfold flag_key. by rewrite Hx.
    + rewrite lookup_insert_ne by done. rewrite (IH Hwk').
      destruct (decide (s = to_lua_safe_id id)) as [->|Hs'].
      * rewrite lookup_insert_eq, Hs.
        rewrite !decide_False; [done|congruence|done].
      * rewrite lookup_insert_ne by done. done.
Qed.

Lemma choice_bools_size t cm : (size (choice_bools t cm) <= size cm)%nat.
Proof.
  unfold choice_bools.
  apply (map_fold_weak_ind (fun (acc : gmap string PyVal) (m : gmap string string) =>
    (size acc <= size m)%nat)).
  - done.
  - intros s x m r Hs IH. rewrite (map_size_insert_None s) by done.
    rewrite map_size_insert. destruct (r !! x); cbv [id]; lia.
Qed.

Lemma new_player_data_lookup t d k :
  new_player_data t d !! k =
  (fun _ => py_from_lua (tbl_get t (LStr k))) <$> d !! k.
Proof.
  unfold new_player_data. rewrite map_lookup_imap. by destruct (d !! k).
Qed.

(** ** Inversion of a successful call *)

Lemma execute_Some L self script w r w' :
  execute L self script w = Ret (Some r) w' ->
  exists env cm w1 t d,
    prepare self w = Ret (env, cm) w1 /\
    safe_wrapper L env script w1 = WTrue w' /\
    lua_heap w' !! env = Some t /\
    py_items (player_data self) w' = Ret d w' /\
    r = {| r_url := py_from_lua (tbl_get t (LStr "url"));
           r_description := py_from_lua (tbl_get t (LStr "description"));
           r_player_data := new_player_data t d;
           r_choices_visibility := choice_bools t cm |}.
Proof.
  unfold execute. intros H.
  apply bind_Ret in H as ([env cm] & w1 & Hp & H).
  unfold run_wrapper in H.
  destruct (safe_wrapper L env script w1) as [w2|msg w2|e w2| |] eqn:Hw;
    try discriminate.
  unfold extract in H.
  apply bind_Ret in H as (w0 & ? & Hg & H). injection Hg as <- <-.
  apply bind_Ret in H as (t & ? & Ht & H). apply lift_opt_Ret in Ht as [Ht ->].
  apply bind_Ret in H as (d & ? & Hd & H).
  pose proof (py_items_Ret _ _ _ _ Hd) as [-> _].
  injection H as <- <-.
  exists env, cm, w1, t, d. done.
Qed.

(** ** MiniLua: more fuel does not change an outcome *)

Lemma exec_block_S f b env w :
  MiniLua.exec_block (S f) b env w =
  match b with
  | [] => MiniLua.SOk w
  | s :: r =>
      match MiniLua.exec_stat f s env w with
      | MiniLua.SOk w' => MiniLua.exec_block f r env w'
      | other => other
      end
  end.
Proof. reflexivity. Qed.

Lemma exec_stat_S f s env w :
  MiniLua.exec_stat (S f) s env w =
  match s with
  | MiniLua.SAssign x e =>
      MiniLua.sbind (MiniLua.eval e env w) (fun v w1 =>
        match lua_heap w1 !! env with
        | Some t =>
            MiniLua.SOk (set_lua_heap (<[env := tbl_set t (LStr x) v]> (lua_heap w1)) w1)
        | None => MiniLua.SUnsup
        end)
  | MiniLua.SSetIndex t k e =>
      MiniLua.sbind (MiniLua.eval t env w) (fun tv w1 =>
        MiniLua.sbind (MiniLua.eval k env w1) (fun kv w2 =>
          MiniLua.sbind (MiniLua.eval e env w2) (fun v w3 =>
            MiniLua.sbind (MiniLua.setindex tv kv v w3) (fun _ w4 => MiniLua.SOk w4))))
  | MiniLua.SCall fn args =>
      MiniLua.sbind (MiniLua.eval (MiniLua.ECall fn args) env w)
                    (fun _ w1 => MiniLua.SOk w1)
  | MiniLua.SIf c th el =>
      MiniLua.sbind (MiniLua.eval c env w) (fun cv w1 =>
        MiniLua.exec_block f (if MiniLua.truthy cv then th else el) env w1)
  | MiniLua.SWhile c body =>
      MiniLua.sbind (MiniLua.eval c env w) (fun cv w1 =>
        if MiniLua.truthy cv then
          match MiniLua.exec_block f body env w1 with
          | MiniLua.SOk w2 => MiniLua.exec_stat f (MiniLua.SWhile c body) env w2
          | other => other
          end
        else MiniLua.SOk w1)
  end.
Proof. reflexivity. Qed.

#[local] Opaque MiniLua.exec_block MiniLua.exec_stat.

Lemma exec_mono n :
  (forall b env w, MiniLua.exec_block n b env w ≠ MiniLua.SHang ->
                   MiniLua.exec_block (S n) b env w = MiniLua.exec_block n b env w) /\
  (forall s env w, MiniLua.exec_stat n s env w ≠ MiniLua.SHang ->
                   MiniLua.exec_stat (S n) s env w = MiniLua.exec_stat n s env w).
Proof.
  induction n as [|n [IHb IHs]].
  { split; intros ? ? ? H; exfalso; apply H; reflexivity. }
  split.
  - intros b env w H. rewrite (exec_block_S (S n)). rewrite exec_block_S in H |- *.
    destruct b as [|s r]; [done|].
    destruct (MiniLua.exec_stat n s env w) as [w'| | |] eqn:Hs;
      rewrite IHs, Hs by (rewrite Hs; done); try done.
    by apply IHb.
  - intros s env w H. rewrite (exec_stat_S (S n)). rewrite exec_stat_S in H |- *.
    destruct s as [x e|t k e|fn args|c th el|c body]; try reflexivity.
    + destruct (MiniLua.eval c env w) as [cv w1| |]; simpl in *; try done.
      by apply IHb.
    + destruct (MiniLua.eval c env w) as [cv w1| |]; simpl in *; try done.
      destruct (MiniLua.truthy cv); [|done].
      destruct (MiniLua.exec_block n body env w1) as [w2| | |] eqn:Hb;
        rewrite IHb, Hb by (rewrite Hb; done); try done.
      by apply IHs.
Qed.

#[local] Transparent MiniLua.exec_block MiniLua.exec_stat.

Lemma exec_block_mono n m b env w :
  (n <= m)%nat -> MiniLua.exec_block n b env w ≠ MiniLua.SHang ->
  MiniLua.exec_block m b env w = MiniLua.exec_block n b env w.
Proof.
  induction 1 as [|m Hle IH]; [done|]. intros H.
  rewrite <- (IH H). apply exec_mono. by rewrite IH.
Qed.

Lemma execute_fuel_mono n m self script w :
  (n <= m)%nat ->
  execute (MiniLua.interp n) self script w ≠ Hang ->
  execute (MiniLua.interp m) self script w = execute (MiniLua.interp n) self script w.
Proof.
  intros Hle. unfold execute, mbind, M_bind.
  destruct (prepare self w) as [[env cm] w1| | |]; try done.
  unfold run_wrapper, safe_wrapper. simpl.
  destruct (MiniLua.load script) as [c| |]; try done.
  unfold MiniLua.pcall. intros H.
  rewrite (exec_block_mono n m) by (try done; intros Hh; by rewrite Hh in H).
  done.
Qed.

(** ** Evaluating concrete calls *)

(** [compute_eq t H]: evaluate the closed term [t] and record its value. *)
Ltac compute_eq t H :=
  let v := eval vm_compute in t in
  assert (t = v) as H by (vm_compute; reflexivity).

Lemma execute_fuel_mono_hangs n m self script w :
  (n <= m)%nat ->
  hangs (execute (MiniLua.interp n) self script w) = false ->
  execute (MiniLua.interp m) self script w = execute (MiniLua.interp n) self script w.
Proof.
  intros Hle Hn. apply execute_fuel_mono; [done|].
  intros E. by rewrite E in Hn.
Qed.

(** [enough_fuel n]: go from the fuel of the goal to the fuel [n], with
    which the call does not run out. *)
Ltac enough_fuel n :=
  match goal with
  | |- context [execute (MiniLua.interp ?m) ?self ?script ?w] =>
      rewrite (execute_fuel_mono_hangs n m self script w)
        by first [assumption | lia | vm_compute; reflexivity]
  end.

(** ** The concrete examples of the specification *)

(** C3. On the two-choice forest node with [energy = 20], the script that
    adds 10 to [energy] and hides the second choice when [energy > 25]
    succeeds, with [energy == 30], the second choice hidden and the first
    one visible. *)
Theorem conditional_visibility_example (fuel : nat) :
  (8 <= fuel)%nat ->
  exists r w',
    execute (MiniLua.interp fuel) forest_sandbox conditional_visibility_script
            (new_world forest_heap) = Ret (Some r) w' /\
    r_player_data r !! "energy" = Some (PyInt 30) /\
    r_choices_visibility r !! "3da81c9d-67bc-4419-ae5a-082c388a6d6d"
      = Some (PyBool false) /\
    r_choices_visibility r !! "52cd4b74-08d2-4709-8804-e6fa6deebe36"
      = Some (PyBool true).
Proof.
  intros Hfuel. enough_fuel 8%nat.
  compute_eq (observe (fun r =>
                (r_player_data r !! "energy",
                 r_choices_visibility r !! "3da81c9d-67bc-4419-ae5a-082c388a6d6d",
                 r_choices_visibility r !! "52cd4b74-08d2-4709-8804-e6fa6deebe36"))
              (execute (MiniLua.interp 8) forest_sandbox
                 conditional_visibility_script (new_world forest_heap))) Ho.
  destruct (execute (MiniLua.interp 8) forest_sandbox conditional_visibility_script
              (new_world forest_heap)) as [[r|] w'| | |]; try discriminate Ho.
  injection Ho as H1 H2 H3. exists r, w'. done.
Qed.

Lemma conditional_visibility_example_witness :
  exists r w',
    execute (MiniLua.interp 100) forest_sandbox conditional_visibility_script
            (new_world forest_heap) = Ret (Some r) w' /\
    r_player_data r !! "energy" = Some (PyInt 30) /\
    r_choices_visibility r !! "3da81c9d-67bc-4419-ae5a-082c388a6d6d"
      = Some (PyBool false) /\
    r_choices_visibility r !! "52cd4b74-08d2-4709-8804-e6fa6deebe36"
      = Some (PyBool true).
Proof. apply (conditional_visibility_example 100). lia. Defined.

(** ** The injection leaves the world alone until it stores the environment *)

Lemma keeps_world_Ret {A} (m : M A) w a w' :
  keeps_world m -> m w = Ret a w' -> w' = w.
Proof. intros Hm H. specialize (Hm w). by rewrite H in Hm. Qed.

Lemma keeps_world_Raise {A} (m : M A) w e w' :
  keeps_world m -> m w = Raise e w' -> w' = w.
Proof. intros Hm H. specialize (Hm w). by rewrite H in Hm. Qed.

Lemma keeps_world_ret {A} (a : A) : keeps_world (mret a).
Proof. by intros w. Qed.

Lemma keeps_world_bind {A B} (m : M A) (k : A -> M B) :
  keeps_world m -> (forall a, keeps_world (k a)) -> keeps_world (m ≫= k).
Proof.
  intros Hm Hk w. unfold mbind, M_bind.
  pose proof (Hm w) as Hw. destruct (m w) as [a w1|e w1| |]; try done.
  subst w1. apply Hk.
Qed.

Lemma keeps_world_lift_opt {A} (o : option A) : keeps_world (lift_opt o).
Proof. intros w. by destruct o. Qed.

Lemma keeps_world_get_world : keeps_world get_world.
Proof. by intros w. Qed.

Lemma keeps_world_py_get obj key : keeps_world (py_get obj key).
Proof.
  intros w. unfold py_get. destruct obj; try done.
  by destruct (py_heap w !! l) as [[]|].
Qed.

Lemma keeps_world_py_items obj : keeps_world (py_items obj).
Proof.
  intros w. unfold py_items. destruct obj; try done.
  by destruct (py_heap w !! l) as [[]|].
Qed.

Lemma keeps_world_py_iter obj : keeps_world (py_iter obj).
Proof.
  intros w. unfold py_iter. destruct obj; try done.
  by destruct (py_heap w !! l) as [[]|].
Qed.

Lemma keeps_world_py_getitem_id choice : keeps_world (py_getitem_id choice).
Proof.
  intros w. unfold py_getitem_id. destruct choice; try done.
  destruct (py_heap w !! l) as [[d|]|]; try done.
  by destruct (d !! "id") as [[]|].
Qed.

Lemma keeps_world_table_from obj : keeps_world (table_from obj).
Proof.
  intros w. unfold table_from. destruct obj as [[]|]; try done.
  - apply keeps_world_lift_opt.
  - destruct (py_heap w !! l) as [[d|]|]; try done; apply keeps_world_lift_opt.
Qed.

Lemma keeps_world_inject_choices cs : forall cm env,
  keeps_world (inject_choices cs cm env).
Proof.
  induction cs as [|c cs IH]; intros cm env; simpl.
  - apply keeps_world_ret.
  - apply keeps_world_bind; [apply keeps_world_py_getitem_id|]. intros id. apply IH.
Qed.

Lemma keeps_world_choice_ids cs : keeps_world (choice_ids cs).
Proof.
  induction cs as [|c cs IH]; simpl.
  - apply keeps_world_ret.
  - apply keeps_world_bind; [apply keeps_world_py_getitem_id|]. intros id.
    apply keeps_world_bind; [apply IH|]. intros ids. apply keeps_world_ret.
Qed.

Lemma keeps_world_node_choice_ids self : keeps_world (node_choice_ids self).
Proof.
  unfold node_choice_ids.
  apply keeps_world_bind; [apply keeps_world_py_get|]. intros choices.
  apply keeps_world_bind; [|intros; apply keeps_world_choice_ids].
  destruct choices; simpl; [apply keeps_world_py_iter|apply keeps_world_ret].
Qed.

Lemma bind_Raise {A B} (m : M A) (k : A -> M B) w e w' :
  (m ≫= k) w = Raise e w' ->
  m w = Raise e w' \/ exists a w1, m w = Ret a w1 /\ k a w1 = Raise e w'.
Proof.
  unfold mbind, M_bind. destruct (m w) as [a w1|e1 w1| |]; try discriminate.
  - intros H. right. exists a, w1. split; [reflexivity|exact H].
  - intros [= -> ->]. left. reflexivity.
Qed.

(** When the injection raises, the world is as it was: nothing is printed,
    no Python object has changed, the runtime holds the same tables. *)
Lemma prepare_Raise self w e w' : prepare self w = Raise e w' -> w' = w.
Proof.
  unfold prepare. intros H.
  apply bind_Raise in H as [H|(w0 & ? & Hw & H)]; [done|]. injection Hw as <- <-.
  apply bind_Raise in H as [H|(G & ? & HG & H)];
    [by apply (keeps_world_Raise _ _ _ _ (keeps_world_lift_opt _)) in H|].
  apply (keeps_world_Ret _ _ _ _ (keeps_world_lift_opt _)) in HG as ->.
  apply bind_Raise in H as [H|(url & ? & Hu & H)];
    [by apply (keeps_world_Raise _ _ _ _ (keeps_world_py_get _ _)) in H|].
  apply (keeps_world_Ret _ _ _ _ (keeps_world_py_get _ _)) in Hu as ->.
  apply bind_Raise in H as [H|(url_l & ? & Hul & H)];
    [by apply (keeps_world_Raise _ _ _ _ (keeps_world_lift_opt _)) in H|].
  apply (keeps_world_Ret _ _ _ _ (keeps_world_lift_opt _)) in Hul as ->.
  apply bind_Raise in H as [H|(desc & ? & Hd & H)];
    [by apply (keeps_world_Raise _ _ _ _ (keeps_world_py_get _ _)) in H|].
  apply (keeps_world_Ret _ _ _ _ (keeps_world_py_get _ _)) in Hd as ->.
  apply bind_Raise in H as [H|(desc_l & ? & Hdl & H)];
    [by apply (keeps_world_Raise _ _ _ _ (keeps_world_lift_opt _)) in H|].
  apply (keeps_world_Ret _ _ _ _ (keeps_world_lift_opt _)) in Hdl as ->.
  apply bind_Raise in H as [H|(choices & ? & Hc & H)];
    [by apply (keeps_world_Raise _ _ _ _ (keeps_world_py_get _ _)) in H|].
  apply (keeps_world_Ret _ _ _ _ (keeps_world_py_get _ _)) in Hc as ->.
  apply bind_Raise in H as [H|(ctbl & ? & Ht & H)];
    [by apply (keeps_world_Raise _ _ _ _ (keeps_world_table_from _)) in H|].
  apply (keeps_world_Ret _ _ _ _ (keeps_world_table_from _)) in Ht as ->.
  apply bind_Raise in H as [H|(d & ? & Hi & H)];
    [by apply (keeps_world_Raise _ _ _ _ (keeps_world_py_items _)) in H|].
  apply (keeps_world_Ret _ _ _ _ (keeps_world_py_items _)) in Hi as ->.
  apply bind_Raise in H as [H|(env4 & ? & Hip & H)];
    [by apply (keeps_world_Raise _ _ _ _ (keeps_world_lift_opt _)) in H|].
  apply (keeps_world_Ret _ _ _ _ (keeps_world_lift_opt _)) in Hip as ->.
  apply bind_Raise in H as [H|(choices' & ? & Hc' & H)];
    [by apply (keeps_world_Raise _ _ _ _ (keeps_world_py_get _ _)) in H|].
  apply (keeps_world_Ret _ _ _ _ (keeps_world_py_get _ _)) in Hc' as ->.
  assert (keeps_world (from_option py_iter (mret []) choices')) as Hk.
  { destruct choices'; simpl; [apply keeps_world_py_iter|apply keeps_world_ret]. }
  apply bind_Raise in H as [H|(cs & ? & Hcs & H)];
    [by apply (keeps_world_Raise _ _ _ _ Hk) in H|].
  apply (keeps_world_Ret _ _ _ _ Hk) in Hcs as ->.
  apply bind_Raise in H as [H|([cm' env5] & ? & Hic & H)];
    [by apply (keeps_world_Raise _ _ _ _ (keeps_world_inject_choices _ _ _)) in H|].
  apply bind_Raise in H as [H|([] & ? & Hput & H)]; discriminate.
Qed.

(** An exception of the injection leaves [execute] as it is. *)
Lemma execute_prepare_Raise L self script w e w' :
  prepare self w = Raise e w' -> execute L self script w = Raise e w.
Proof.
  intros H. pose proof (prepare_Raise _ _ _ _ H) as ->.
  unfold execute, mbind, M_bind. by rewrite H.
Qed.

(** C1. A choice record without [id] makes [execute] raise KeyError past
    its boundary, whatever the interpreter and the script: the loop over the
    choices runs before the [try]. *)
Theorem execute_missing_id_raises (L : LuaInterp) (script : string) :
  execute L missing_id_sandbox script (new_world missing_id_heap)
  = Raise (KeyError "id") (new_world missing_id_heap).
Proof.
  compute_eq (outcome (prepare missing_id_sandbox (new_world missing_id_heap))) Ho.
  destruct (prepare missing_id_sandbox (new_world missing_id_heap))
    as [a w1|e w1| |] eqn:Hp; try discriminate Ho.
  injection Ho as ->. by eapply execute_prepare_Raise.
Qed.

(** A loop without end keeps [execute] from returning: no instruction limit
    is set on the protected call. *)
Lemma while_true_never_ends fuel env w :
  MiniLua.exec_stat fuel (MiniLua.SWhile (MiniLua.EBool true) []) env w = MiniLua.SHang.
Proof.
  revert w. induction fuel as [|f IH]; intros w; [done|].
  rewrite exec_stat_S. simpl. destruct f; [done|]. rewrite exec_block_S. apply IH.
Qed.

Lemma execute_while_true_hangs fuel :
  execute (MiniLua.interp fuel) forest_sandbox "while true do end"
          (new_world forest_heap) = Hang.
Proof.
  unfold execute, mbind, M_bind.
  compute_eq (returns (prepare forest_sandbox (new_world forest_heap))) Ho.
  destruct (prepare forest_sandbox (new_world forest_heap)) as [[env cm] w1|e w1| |];
    try discriminate Ho.
  clear Ho.
  unfold run_wrapper, safe_wrapper.
  replace (lua_load (MiniLua.interp fuel) "while true do end")
    with (Loaded [MiniLua.SWhile (MiniLua.EBool true) []] : LoadRes (chunk (MiniLua.interp fuel)))
    by (vm_compute; reflexivity).
  simpl. unfold MiniLua.pcall. destruct fuel; [done|].
  rewrite exec_block_S, while_true_never_ends. done.
Qed.

(** C8. Two consecutive calls on the same sandbox, with the same node, the
    same player variables and the same script, return different results: the
    mark the first run leaves in the [math] table of the shared runtime is
    seen by the second. *)
Theorem shared_runtime_leaks (fuel : nat) :
  (8 <= fuel)%nat ->
  exists r1 w1 r2 w2,
    execute (MiniLua.interp fuel) forest_sandbox marking_script
            (new_world forest_heap) = Ret (Some r1) w1 /\
    py_heap w1 = forest_heap /\
    execute (MiniLua.interp fuel) forest_sandbox marking_script w1
      = Ret (Some r2) w2 /\
    r_player_data r1 !! "energy" = Some (PyInt 20) /\
    r_player_data r2 !! "energy" = Some (PyInt 0).
Proof.
  intros Hfuel. enough_fuel 8%nat.
  compute_eq (observe (fun r => r_player_data r !! "energy")
                (execute (MiniLua.interp 8) forest_sandbox marking_script
                   (new_world forest_heap))) H1.
  compute_eq (observe_world (fun w => bool_decide (py_heap w = forest_heap))
                (execute (MiniLua.interp 8) forest_sandbox marking_script
                   (new_world forest_heap))) Hpy.
  compute_eq (hangs (execute (MiniLua.interp 8) forest_sandbox marking_script
                (world_after (new_world forest_heap)
                   (execute (MiniLua.interp 8) forest_sandbox marking_script
                      (new_world forest_heap))))) Hh.
  compute_eq (observe (fun r => r_player_data r !! "energy")
                (execute (MiniLua.interp 8) forest_sandbox marking_script
                   (world_after (new_world forest_heap)
                      (execute (MiniLua.interp 8) forest_sandbox marking_script
                         (new_world forest_heap))))) H2.
  destruct (execute (MiniLua.interp 8) forest_sandbox marking_script
              (new_world forest_heap)) as [[r1|] w1| | |]; try discriminate H1.
  cbn [world_after observe observe_world] in H1, Hpy, Hh, H2.
  exists r1, w1.
  rewrite (execute_fuel_mono_hangs 8 fuel) by first [assumption | exact Hh].
  destruct (execute (MiniLua.interp 8) forest_sandbox marking_script w1)
    as [[r2|] w2| | |]; try discriminate H2.
  cbn [observe] in H2. exists r2, w2.
  injection H1 as H1. injection H2 as H2. injection Hpy as Hpy.
  apply bool_decide_eq_true_1 in Hpy. done.
Qed.

Lemma shared_runtime_leaks_witness :
  exists r1 w1 r2 w2,
    execute (MiniLua.interp 50) forest_sandbox marking_script
            (new_world forest_heap) = Ret (Some r1) w1 /\
    py_heap w1 = forest_heap /\
    execute (MiniLua.interp 50) forest_sandbox marking_script w1
      = Ret (Some r2) w2 /\
    r_player_data r1 !! "energy" = Some (PyInt 20) /\
    r_player_data r2 !! "energy" = Some (PyInt 0).
Proof. apply (shared_runtime_leaks 50). lia. Defined.

(** C9. A script can write through a choice record: after the call the
    caller's node data has changed. *)
Theorem script_rewrites_choice_record (fuel : nat) :
  (8 <= fuel)%nat ->
  exists r w',
    execute (MiniLua.interp fuel) forest_sandbox rewriting_script
            (new_world forest_heap) = Ret (Some r) w' /\
    forest_heap !! 2%nat =
      Some (PyDict {[ "id" := PyStr "52cd4b74-08d2-4709-8804-e6fa6deebe36";
                      "text" := PyStr "Stay" ]}) /\
    py_heap w' !! 2%nat =
      Some (PyDict {[ "id" := PyStr "52cd4b74-08d2-4709-8804-e6fa6deebe36";
                      "text" := PyStr "Gone" ]}).
Proof.
  intros Hfuel. enough_fuel 8%nat.
  compute_eq (observe (fun _ => tt)
                (execute (MiniLua.interp 8) forest_sandbox rewriting_script
                   (new_world forest_heap))) H1.
  compute_eq (observe_world (fun w => bool_decide (py_heap w !! 2%nat =
                Some (PyDict {[ "id" := PyStr "52cd4b74-08d2-4709-8804-e6fa6deebe36";
                                "text" := PyStr "Gone" ]})))
                (execute (MiniLua.interp 8) forest_sandbox rewriting_script
                   (new_world forest_heap))) Hpy.
  destruct (execute (MiniLua.interp 8) forest_sandbox rewriting_script
              (new_world forest_heap)) as [[r|] w'| | |]; try discriminate H1.
  cbn [observe_world] in Hpy. injection Hpy as Hpy.
  apply bool_decide_eq_true_1 in Hpy.
  exists r, w'. split; [reflexivity|]. split; [reflexivity|exact Hpy].
Qed.

Lemma script_rewrites_choice_record_witness :
  exists r w',
    execute (MiniLua.interp 50) forest_sandbox rewriting_script
            (new_world forest_heap) = Ret (Some r) w' /\
    forest_heap !! 2%nat =
      Some (PyDict {[ "id" := PyStr "52cd4b74-08d2-4709-8804-e6fa6deebe36";
                      "text" := PyStr "Stay" ]}) /\
    py_heap w' !! 2%nat =
      Some (PyDict {[ "id" := PyStr "52cd4b74-08d2-4709-8804-e6fa6deebe36";
                      "text" := PyStr "Gone" ]}).
Proof. apply (script_rewrites_choice_record 50). lia. Defined.

(** ** Where the general statements of the specification fail *)


(** Unmangling through the reverse table does not recover [a-b]: the
    mangling is not injective on the identifiers of this node. *)
Lemma collision_breaks_round_trip :
  exists env cm w1,
    prepare collision_sandbox (new_world collision_heap) = Ret (env, cm) w1 /\
    to_lua_safe_id "a-b" = to_lua_safe_id "a_b" /\
    cm !! to_lua_safe_id "a-b" = Some "a_b".
Proof.
  compute_eq (match prepare collision_sandbox (new_world collision_heap) with
              | Ret (_, cm) _ => Some (cm !! to_lua_safe_id "a-b")
              | _ => None
              end) Ho.
  destruct (prepare collision_sandbox (new_world collision_heap))
    as [[env cm] w1|e w1| |]; try discriminate Ho.
  injection Ho as Ho. exists env, cm, w1. done.
Qed.



(** ** What a successful call returns *)

Lemma py_round_trip v lv : py_to_lua v = Some lv -> py_from_lua lv = v.
Proof.
  destruct v; simpl; try (intros [= <-]; reflexivity).
  destruct (lua_Integer_range n); [|discriminate]. by intros [= <-].
Qed.

Lemma prepared_env self w env cm w1 :
  prepare self w = Ret (env, cm) w1 ->
  exists G url_l desc_l d ids env4,
    py_items (player_data self) w = Ret d w /\
    node_choice_ids self w = Ret ids w /\
    inject_player d (context_env G url_l desc_l env) = Some env4 /\
    cm = choice_map_of ids ∅ /\
    lua_heap w1 !! env = Some (set_flags ids env4) /\
    py_heap w1 = py_heap w /\ stdout w1 = stdout w.
Proof.
  intros H. apply prepare_Ret in H
    as (G & url_l & desc_l & d & ids & env4 & ctbl & HG & -> & Hd & Hids & Hip & -> & ->).
  exists G, url_l, desc_l, d, ids, env4. repeat split; try done.
  simpl. rewrite lookup_app_r by done. by rewrite Nat.sub_diag.
Qed.

(** After the injection every choice has its flag set to [true]. *)
Lemma prepared_flag self w env cm w1 ids id :
  prepare self w = Ret (env, cm) w1 ->
  node_choice_ids self w = Ret ids w ->
  id ∈ ids ->
  env_get w1 env (flag_name (to_lua_safe_id id)) = LBool true.
Proof.
  intros Hp Hids Hin.
  apply prepared_env in Hp
    as (G & url_l & desc_l & d & ids' & env4 & Hd & Hids' & Hip & -> & Ht & _).
  rewrite Hids in Hids'. injection Hids' as <-.
  unfold env_get. rewrite Ht. simpl. rewrite set_flags_get.
  rewrite bool_decide_eq_true_2; [done|].
  by apply (list_elem_of_fmap_2 flag_key).
Qed.

(** After the injection a player variable holds its input value, unless it
    is named like the flag of a choice. *)
Lemma prepared_player self w env cm w1 ids d k v :
  prepare self w = Ret (env, cm) w1 ->
  node_choice_ids self w = Ret ids w ->
  py_items (player_data self) w = Ret d w ->
  d !! k = Some v ->
  LStr k ∉ flag_key <$> ids ->
  py_from_lua (env_get w1 env k) = v.
Proof.
  intros Hp Hids Hd Hk Hnf.
  apply prepared_env in Hp
    as (G & url_l & desc_l & d' & ids' & env4 & Hd' & Hids' & Hip & -> & Ht & _).
  rewrite Hids in Hids'. injection Hids' as <-.
  rewrite Hd in Hd'. injection Hd' as <-.
  unfold env_get. rewrite Ht. simpl. rewrite set_flags_get.
  rewrite bool_decide_eq_false_2 by done.
  rewrite (inject_player_get _ _ _ Hip), Hk.
  destruct (inject_player_values _ _ _ Hip _ _ Hk) as [lv Hlv].
  rewrite Hlv. simpl. by apply py_round_trip.
Qed.

Lemma execute_Some_prepared L self script w env cm w1 r w' :
  prepare self w = Ret (env, cm) w1 ->
  execute L self script w = Ret (Some r) w' ->
  exists t d,
    safe_wrapper L env script w1 = WTrue w' /\
    lua_heap w' !! env = Some t /\
    py_items (player_data self) w' = Ret d w' /\
    r_player_data r = new_player_data t d /\
    r_choices_visibility r = choice_bools t cm.
Proof.
  intros Hp H. apply execute_Some in H as (env' & cm' & w1' & t & d & Hp' & Hw & Ht & Hd & ->).
  rewrite Hp in Hp'. injection Hp' as <- <- <-.
  exists t, d. done.
Qed.

Lemma prepared_choice_map self w env cm w1 ids :
  prepare self w = Ret (env, cm) w1 ->
  node_choice_ids self w = Ret ids w ->
  cm = choice_map_of ids ∅.
Proof.
  intros Hp Hids.
  apply prepared_env in Hp
    as (G & url_l & desc_l & d' & ids' & env4 & Hd' & Hids' & Hip & -> & Ht & _).
  rewrite Hids in Hids'. by injection Hids' as <-.
Qed.

(** C10. When two distinct choice identifiers of a node share a safe name,
    [execute] goes on as usual: in the reverse table the later one replaces
    the earlier one, both have the same flag variable, and the returned
    [choices_visibility] has an entry for the later identifier and none for
    the earlier one, hence fewer entries than the node has choices. *)
Theorem mangling_collision_is_silent (L : LuaInterp) self script w env cm w1 r w'
    (ids l1 l2 : list string) (x y : string) :
  prepare self w = Ret (env, cm) w1 ->
  node_choice_ids self w = Ret ids w ->
  execute L self script w = Ret (Some r) w' ->
  ids = l1 ++ y :: l2 ->
  x ∈ l1 ->
  x ≠ y ->
  to_lua_safe_id x = to_lua_safe_id y ->
  (forall z, z ∈ l2 -> to_lua_safe_id z ≠ to_lua_safe_id y) ->
  cm !! to_lua_safe_id x = Some y /\
  flag_name (to_lua_safe_id x) = flag_name (to_lua_safe_id y) /\
  env_get w1 env (flag_name (to_lua_safe_id x)) = LBool true /\
  is_Some (r_choices_visibility r !! y) /\
  r_choices_visibility r !! x = None /\
  (size (r_choices_visibility r) < length ids)%nat.
Proof.
  intros Hp Hids Hex -> Hx Hne Hsafe Hlast.
  pose proof (prepared_choice_map _ _ _ _ _ _ Hp Hids) as ->.
  destruct (execute_Some_prepared _ _ _ _ _ _ _ _ _ Hp Hex) as (t & d & _ & _ & _ & _ & Hcv).
  assert (choice_map_of (l1 ++ y :: l2) ∅ !! to_lua_safe_id y = Some y) as Hy
    by by apply choice_map_of_last.
  repeat split.
  - by rewrite Hsafe.
  - by rewrite Hsafe.
  - eapply prepared_flag; [done..|]. apply elem_of_app. by left.
  - rewrite Hcv, choice_bools_lookup by apply choice_map_of_well_keyed.
    rewrite decide_True by done. eauto.
  - rewrite Hcv, choice_bools_lookup by apply choice_map_of_well_keyed.
    rewrite decide_False; [done|]. rewrite Hsafe, Hy. congruence.
  - rewrite Hcv. eapply Nat.le_lt_trans; [apply choice_bools_size|].
    rewrite choice_map_of_app. change (y :: l2) with ([y] ++ l2).
    rewrite choice_map_of_app.
    eapply Nat.le_lt_trans; [apply choice_map_of_size|].
    unfold choice_map_of at 1. simpl.
    destruct (choice_map_of_dom l1 x Hx) as [x' Hx'].
    rewrite map_size_insert, <- Hsafe, Hx'.
    pose proof (choice_map_of_size l1 ∅) as Hsz. rewrite map_size_empty in Hsz.
    rewrite !length_app. simpl. lia.
Qed.

Lemma mangling_collision_is_silent_witness :
  exists env cm w1 r w',
    prepare collision_sandbox (new_world collision_heap) = Ret (env, cm) w1 /\
    execute (MiniLua.interp 8) collision_sandbox "" (new_world collision_heap)
      = Ret (Some r) w' /\
    cm !! to_lua_safe_id "a-b" = Some "a_b" /\
    flag_name (to_lua_safe_id "a-b") = flag_name (to_lua_safe_id "a_b") /\
    env_get w1 env (flag_name (to_lua_safe_id "a-b")) = LBool true /\
    is_Some (r_choices_visibility r !! "a_b") /\
    r_choices_visibility r !! "a-b" = None /\
    (size (r_choices_visibility r) < length ["a-b"; "a_b"])%nat.
Proof.
  compute_eq (returns (prepare collision_sandbox (new_world collision_heap))) Hr.
  compute_eq (observe (fun _ => tt)
                (execute (MiniLua.interp 8) collision_sandbox ""
                   (new_world collision_heap))) Ho.
  compute_eq (outcome (node_choice_ids collision_sandbox (new_world collision_heap))) Hi.
  pose proof (keeps_world_node_choice_ids collision_sandbox (new_world collision_heap)) as Hk.
  destruct (prepare collision_sandbox (new_world collision_heap))
    as [[env cm] w1|e w1| |] eqn:Hp; try discriminate Hr.
  destruct (execute (MiniLua.interp 8) collision_sandbox "" (new_world collision_heap))
    as [[r|] w'| | |] eqn:Hex; try discriminate Ho.
  destruct (node_choice_ids collision_sandbox (new_world collision_heap))
    as [ids w2|e w2| |] eqn:Hids; try discriminate Hi.
  injection Hi as ->. subst w2. clear Hr Ho.
  exists env, cm, w1, r, w'. split; [reflexivity|]. split; [reflexivity|].
  apply (mangling_collision_is_silent (MiniLua.interp 8) collision_sandbox ""
           (new_world collision_heap) env cm w1 r w' ["a-b"; "a_b"] ["a-b"] [] "a-b" "a_b").
  - exact Hp.
  - exact Hids.
  - exact Hex.
  - reflexivity.
  - apply list_elem_of_singleton. reflexivity.
  - discriminate.
  - reflexivity.
  - intros z Hz. apply elem_of_nil in Hz. destruct Hz.
Defined.

(** Mangling is injective on identifiers without underscores, such as
    UUIDs. *)
Lemma to_lua_safe_id_inj_no_underscore x : forall y,
  no_underscore x = true -> no_underscore y = true ->
  to_lua_safe_id x = to_lua_safe_id y -> x = y.
Proof.
  unfold to_lua_safe_id.
  induction x as [|c x IH]; intros [|c' y]; simpl; try done.
  intros [Hc Hx]%andb_prop [Hc' Hy]%andb_prop [= Hcc Hxy].
  f_equal; [|by apply IH].
  destruct (Ascii.eqb_spec c "-"%char) as [->|], (Ascii.eqb_spec c' "-"%char) as [->|];
    try done; subst; simpl in *; by rewrite ?Ascii.eqb_refl in *.
Qed.

(** C5 (amended). When the node's choice identifiers stay distinct after
    mangling, looking a safe name up in the reverse table gives back the
    identifier it came from, for every choice of the invocation. *)
Theorem reverse_table_round_trip self w env cm w1 (ids : list string) :
  prepare self w = Ret (env, cm) w1 ->
  node_choice_ids self w = Ret ids w ->
  (forall x y, x ∈ ids -> y ∈ ids -> to_lua_safe_id x = to_lua_safe_id y -> x = y) ->
  forall id, id ∈ ids -> cm !! to_lua_safe_id id = Some id.
Proof.
  intros Hp Hids Hinj id Hin.
  pose proof (prepared_choice_map _ _ _ _ _ _ Hp Hids) as ->.
  destruct (choice_map_of_dom ids id Hin) as [id' Hid'].
  rewrite Hid'. f_equal.
  apply choice_map_of_Some in Hid' as [Hin' Hs]. by apply Hinj.
Qed.

Lemma reverse_table_round_trip_witness :
  exists env cm w1,
    prepare forest_sandbox (new_world forest_heap) = Ret (env, cm) w1 /\
    cm !! to_lua_safe_id "3da81c9d-67bc-4419-ae5a-082c388a6d6d"
      = Some "3da81c9d-67bc-4419-ae5a-082c388a6d6d".
Proof.
  compute_eq (returns (prepare forest_sandbox (new_world forest_heap))) Hr.
  compute_eq (outcome (node_choice_ids forest_sandbox (new_world forest_heap))) Hi.
  pose proof (keeps_world_node_choice_ids forest_sandbox (new_world forest_heap)) as Hk.
  destruct (prepare forest_sandbox (new_world forest_heap))
    as [[env cm] w1|e w1| |] eqn:Hp; try discriminate Hr.
  destruct (node_choice_ids forest_sandbox (new_world forest_heap))
    as [ids w2|e w2| |] eqn:Hids; try discriminate Hi.
  injection Hi as ->. subst w2. clear Hr.
  exists env, cm, w1. split; [reflexivity|].
  apply (reverse_table_round_trip forest_sandbox (new_world forest_heap) env cm w1
           ["52cd4b74-08d2-4709-8804-e6fa6deebe36";
            "3da81c9d-67bc-4419-ae5a-082c388a6d6d"]).
  - exact Hp.
  - exact Hids.
  - intros x y Hx Hy. apply to_lua_safe_id_inj_no_underscore.
    + rewrite !elem_of_cons, elem_of_nil in Hx. destruct Hx as [->|[->|[]]]; reflexivity.
    + rewrite !elem_of_cons, elem_of_nil in Hy. destruct Hy as [->|[->|[]]]; reflexivity.
  - apply elem_of_cons. right. apply elem_of_cons. left. reflexivity.
Defined.







(** ** MiniLua: reaching for an unbound symbol *)




(** ** MiniLua: the environment table is out of a script's reach *)

Lemma expr_ind_args (P : MiniLua.expr -> Prop) :
  P MiniLua.ENil ->
  (forall b, P (MiniLua.EBool b)) ->
  (forall n, P (MiniLua.EInt n)) ->
  (forall s, P (MiniLua.EStr s)) ->
  (forall x, P (MiniLua.EVar x)) ->
  (forall e k, P e -> P k -> P (MiniLua.EIndex e k)) ->
  (forall f args, P f -> Forall P args -> P (MiniLua.ECall f args)) ->
  (forall op a b, P a -> P b -> P (MiniLua.EBin op a b)) ->
  (forall a b, P a -> P b -> P (MiniLua.EAnd a b)) ->
  (forall a b, P a -> P b -> P (MiniLua.EOr a b)) ->
  (forall a, P a -> P (MiniLua.ENot a)) ->
  (forall a, P a -> P (MiniLua.ENeg a)) ->
  forall e, P e.
Proof.
  intros Hnil Hbool Hint Hstr Hvar Hidx Hcall Hbin Hand Hor Hnot Hneg.
  fix IH 1. intros e. destruct e as [| | | | |e k|f args|op a b|a b|a b|a|a].
  - apply Hnil.
  - apply Hbool.
  - apply Hint.
  - apply Hstr.
  - apply Hvar.
  - apply Hidx; apply IH.
  - apply Hcall; [apply IH|].
    induction args as [|a args IHargs]; constructor; [apply IH|apply IHargs].
  - apply Hbin; apply IH.
  - apply Hand; apply IH.
  - apply Hor; apply IH.
  - apply Hnot; apply IH.
  - apply Hneg; apply IH.
Qed.


Lemma eval_ECall f args env w :
  MiniLua.eval (MiniLua.ECall f args) env w =
  MiniLua.lbind (MiniLua.eval f env w) (fun fv w1 =>
    MiniLua.lbind (eval_args env args w1) (fun avs w2 => MiniLua.call fv avs w2)).
Proof. reflexivity. Qed.

Lemma same_heaps_refl w : same_heaps w w.
Proof. by split. Qed.

Lemma same_heaps_trans w1 w2 w3 :
  same_heaps w1 w2 -> same_heaps w2 w3 -> same_heaps w1 w3.
Proof. intros [H1 H2] [H3 H4]. split; congruence. Qed.






Lemma call_no_ref env f args w v w' :
  MiniLua.call f args w = MiniLua.LOk v w' -> same_heaps w w' /\ v ≠ LTable env.
Proof.
  unfold MiniLua.call. destruct f; try discriminate.
  destruct (decide (name = "print")) as [->|Hp].
  { destruct (mapM MiniLua.tostring args); [|discriminate].
    intros [= <- <-]. split; [by split|done]. }
  destruct (decide (name = "tostring")) as [->|Ht].
  { destruct args as [|a args]; [discriminate|].
    destruct (MiniLua.tostring a); [|discriminate].
    intros [= <- <-]. split; [by split|done]. }
  intros H. exfalso. revert H.
  repeat (destruct name as [|[[] [] [] [] [] [] [] []] name]; try discriminate;
          try (by destruct Hp); try (by destruct Ht)).
Qed.

Lemma binary_no_ref env op a b w v w' :
  MiniLua.binary op a b w = MiniLua.LOk v w' -> w' = w /\ v ≠ LTable env.
Proof.
  unfold MiniLua.binary.
  destruct op, a, b; simpl; try discriminate;
    try (intros [= <- <-]; split; done);
    repeat match goal with
           | |- context [if ?c then _ else _] => destruct c
           end; try discriminate; intros [= <- <-]; split; done.
Qed.



#[local] Opaque MiniLua.exec_block MiniLua.exec_stat.


#[local] Transparent MiniLua.exec_block MiniLua.exec_stat.

(** ** The environment binds the injected names and nothing else *)

Lemma prepared_unbound self w env cm w1 d ids g :
  prepare self w = Ret (env, cm) w1 ->
  py_items (player_data self) w = Ret d w ->
  node_choice_ids self w = Ret ids w ->
  ~ injected d ids g ->
  env_get w1 env g = LNil.
Proof.
  intros Hp Hd Hids Hni.
  apply prepared_env in Hp
    as (G & url_l & desc_l & d' & ids' & env4 & Hd' & Hids' & Hip & -> & Ht & _).
  rewrite Hids in Hids'. injection Hids' as <-.
  rewrite Hd in Hd'. injection Hd' as <-.
  unfold injected in Hni.
  unfold env_get. rewrite Ht. simpl. rewrite set_flags_get.
  rewrite bool_decide_eq_false_2 by tauto.
  rewrite (inject_player_get _ _ _ Hip).
  destruct (d !! g) as [v|] eqn:Hg; [destruct Hni; eauto|].
  unfold context_env. rewrite !tbl_get_set_ne.
  - rewrite white_room_get. rewrite bool_decide_eq_false_2; [done|tauto].
  - intros [= <-]. apply Hni. right. left. set_solver.
  - intros [= <-]. apply Hni. right. left. set_solver.
  - intros [= <-]. apply Hni. right. left. set_solver.
Qed.








(** ** MiniLua: blocks *)

#[local] Opaque MiniLua.exec_block MiniLua.exec_stat.



#[local] Transparent MiniLua.exec_block MiniLua.exec_stat.




(** * More of the module *)

(** ** [_to_lua_safe_id] *)

(** X1. The safe form of an identifier has the length of the identifier and
    no hyphen; mangling it again changes nothing; and it is the identifier
    itself exactly when the identifier has no hyphen. *)
Theorem to_lua_safe_id_shape (s : string) :
  String.length (to_lua_safe_id s) = String.length s /\
  has_hyphen (to_lua_safe_id s) = false /\
  to_lua_safe_id (to_lua_safe_id s) = to_lua_safe_id s /\
  (to_lua_safe_id s = s <-> has_hyphen s = false).
Proof.
  unfold to_lua_safe_id. induction s as [|c s (IH1 & IH2 & IH3 & IH4)]; [done|].
  simpl. destruct (Ascii.eqb_spec c "-"%char) as [->|Hc].
  - simpl. repeat split; congruence.
  - assert (Ascii.eqb c "-"%char = false) as Hcb by by apply Ascii.eqb_neq.
    simpl. rewrite Hcb. simpl. repeat split; try congruence.
    all: intros H; try injection H as H; try f_equal; by apply IH4.
Qed.

(** X2. Two identifiers without underscores that have the same safe form
    are the same identifier: on UUIDs the mangling loses nothing. *)
Theorem mangling_injective_without_underscores (x y : string) :
  no_underscore x = true -> no_underscore y = true ->
  to_lua_safe_id x = to_lua_safe_id y -> x = y.
Proof. apply to_lua_safe_id_inj_no_underscore. Qed.

Lemma mangling_injective_without_underscores_witness :
  "3da81c9d-67bc-4419-ae5a-082c388a6d6d" = "3da81c9d-67bc-4419-ae5a-082c388a6d6d".
Proof.
  apply (mangling_injective_without_underscores
           "3da81c9d-67bc-4419-ae5a-082c388a6d6d"
           "3da81c9d-67bc-4419-ae5a-082c388a6d6d"); reflexivity.
Defined.

(** ** The environment of a call *)

(** Concrete calls: the injection, the identifiers, the call itself. *)
Ltac run_prepare sb w0 :=
  let Hr := fresh "Hr" in
  compute_eq (returns (prepare sb w0)) Hr;
  destruct (prepare sb w0) as [[env cm] w1|e w1| |] eqn:Hp;
  try discriminate Hr; clear Hr.

Ltac run_choice_ids sb w0 :=
  let Hi := fresh "Hi" in
  let Hk := fresh "Hk" in
  compute_eq (outcome (node_choice_ids sb w0)) Hi;
  pose proof (keeps_world_node_choice_ids sb w0) as Hk;
  destruct (node_choice_ids sb w0) as [ids w2|e2 w2| |] eqn:Hids;
  try discriminate Hi; injection Hi as ->; subst w2.

Ltac run_execute I sb script w0 heap :=
  let Ho := fresh "Ho" in
  let Hheap := fresh "Hheap" in
  compute_eq (observe (fun _ => tt) (execute I sb script w0)) Ho;
  compute_eq (observe_world (fun w => bool_decide (py_heap w = heap))
                (execute I sb script w0)) Hheap;
  destruct (execute I sb script w0) as [[r|] w'| | |] eqn:Hex;
  try discriminate Ho; clear Ho;
  injection Hheap as Hheap; apply bool_decide_eq_true_1 in Hheap.


Lemma flag_key_prefix g id :
  LStr g = flag_key id -> g = "choice_" +:+ to_lua_safe_id id.
Proof. by intros [= ->]. Qed.

Lemma reserved_not_flag g (ids : list string) :
  g ∈ white_room_names ++ ["url"; "description"; "choices"] ->
  LStr g ∉ flag_key <$> ids.
Proof.
  intros Hg Hin. apply list_elem_of_fmap in Hin as (id & Hid & _).
  apply flag_key_prefix in Hid. subst g.
  unfold white_room_names in Hg. simpl in Hg.
  rewrite !elem_of_cons, elem_of_nil in Hg.
  repeat (destruct Hg as [Hg|Hg]; [discriminate Hg|]). done.
Qed.


(** The empty script: the wrapper hands the environment back as the
    injection left it. *)
Lemma execute_empty_script fuel self w env cm w1 :
  prepare self w = Ret (env, cm) w1 ->
  execute (MiniLua.interp (S fuel)) self "" w = extract self env cm w1.
Proof.
  intros Hp. unfold execute, mbind, M_bind. rewrite Hp.
  unfold run_wrapper, safe_wrapper.
  replace (lua_load (MiniLua.interp (S fuel)) "")
    with (Loaded [] : LoadRes (chunk (MiniLua.interp (S fuel))))
    by (vm_compute; reflexivity).
  reflexivity.
Qed.

Lemma keeps_world_extract self env cm : keeps_world (extract self env cm).
Proof.
  unfold extract.
  apply keeps_world_bind; [apply keeps_world_get_world|]. intros w0.
  apply keeps_world_bind; [apply keeps_world_lift_opt|]. intros t.
  apply keeps_world_bind; [apply keeps_world_py_items|]. intros d.
  apply keeps_world_ret.
Qed.

Lemma execute_empty_script_world fuel self w env cm w1 r w' :
  prepare self w = Ret (env, cm) w1 ->
  execute (MiniLua.interp (S fuel)) self "" w = Ret r w' ->
  w' = w1.
Proof.
  intros Hp. rewrite (execute_empty_script _ _ _ _ _ _ Hp).
  apply keeps_world_Ret, keeps_world_extract.
Qed.

(** X3. The environment binds the injected names and no other: a name that
    is not one of the eight library entries, not [url], [description] or
    [choices], not a player variable and not the flag of a choice reads as
    nil, whatever the runtime's globals hold. *)
Theorem environment_binds_only_injected_names self w env cm w1 d ids g :
  prepare self w = Ret (env, cm) w1 ->
  py_items (player_data self) w = Ret d w ->
  node_choice_ids self w = Ret ids w ->
  ~ injected d ids g ->
  env_get w1 env g = LNil.
Proof. apply prepared_unbound. Qed.

Lemma environment_binds_only_injected_names_witness :
  exists env cm w1,
    prepare forest_sandbox (new_world forest_heap) = Ret (env, cm) w1 /\
    env_get w1 env "os" = LNil.
Proof.
  run_prepare forest_sandbox (new_world forest_heap).
  run_choice_ids forest_sandbox (new_world forest_heap).
  exists env, cm, w1. split; [reflexivity|].
  apply (environment_binds_only_injected_names forest_sandbox (new_world forest_heap)
           env cm w1 {[ "energy" := PyInt 20 ]}
           ["52cd4b74-08d2-4709-8804-e6fa6deebe36";
            "3da81c9d-67bc-4419-ae5a-082c388a6d6d"] "os").
  - exact Hp.
  - reflexivity.
  - exact Hids.
  - unfold injected. apply (bool_decide_unpack _). vm_compute. exact I.
Defined.


(** X4. The library names of the environment are bound to the runtime's own
    values: [math], [string] and [table] are the runtime's tables, shared by
    every call, not copies (unless a player variable takes the name). *)
Theorem library_entries_are_the_runtime_s self w env cm w1 G d g :
  prepare self w = Ret (env, cm) w1 ->
  lua_heap w !! 0%nat = Some G ->
  py_items (player_data self) w = Ret d w ->
  g ∈ white_room_names ->
  d !! g = None ->
  env_get w1 env g = tbl_get G (LStr g).
Proof.
  intros Hp HG Hd Hg Hdg.
  pose proof Hp as Hp'.
  apply prepare_Ret in Hp'
    as (G' & url_l & desc_l & d' & ids & env4 & ctbl & HG' & -> & Hd' & Hids & Hip & -> & ->).
  rewrite HG in HG'. injection HG' as <-.
  rewrite Hd in Hd'. injection Hd' as <-.
  unfold env_get. simpl. rewrite lookup_app_r by done. rewrite Nat.sub_diag. simpl.
  rewrite set_flags_get.
  rewrite bool_decide_eq_false_2
    by (apply reserved_not_flag, elem_of_app; by left).
  rewrite (inject_player_get _ _ _ Hip), Hdg.
  unfold context_env. unfold white_room_names in Hg.
  rewrite !tbl_get_set_ne.
  - rewrite white_room_get. by rewrite bool_decide_eq_true_2.
  - intros [= <-]. rewrite !elem_of_cons, elem_of_nil in Hg.
    repeat (destruct Hg as [Hg|Hg]; [discriminate Hg|]). done.
  - intros [= <-]. rewrite !elem_of_cons, elem_of_nil in Hg.
    repeat (destruct Hg as [Hg|Hg]; [discriminate Hg|]). done.
  - intros [= <-]. rewrite !elem_of_cons, elem_of_nil in Hg.
    repeat (destruct Hg as [Hg|Hg]; [discriminate Hg|]). done.
Qed.

Lemma library_entries_are_the_runtime_s_witness :
  exists env cm w1,
    prepare forest_sandbox (new_world forest_heap) = Ret (env, cm) w1 /\
    env_get w1 env "math" = tbl_get MiniLua.globals (LStr "math").
Proof.
  run_prepare forest_sandbox (new_world forest_heap).
  exists env, cm, w1. split; [reflexivity|].
  apply (library_entries_are_the_runtime_s forest_sandbox (new_world forest_heap)
           env cm w1 MiniLua.globals {[ "energy" := PyInt 20 ]} "math").
  - exact Hp.
  - reflexivity.
  - reflexivity.
  - apply (bool_decide_unpack _). vm_compute. exact I.
  - reflexivity.
Defined.


(** X5. A player variable named [url] takes the place of the node's url in
    the environment: when the script leaves [url] alone, the returned url is
    the player's value. *)
Theorem player_variable_shadows_url (L : LuaInterp) self script w env cm w1 r w' d v :
  prepare self w = Ret (env, cm) w1 ->
  py_items (player_data self) w = Ret d w ->
  execute L self script w = Ret (Some r) w' ->
  d !! "url" = Some v ->
  env_get w' env "url" = env_get w1 env "url" ->
  r_url r = v.
Proof.
  intros Hp Hd Hex Hv Hsame.
  destruct (prepared_env _ _ _ _ _ Hp)
    as (G & url_l & desc_l & d' & ids & env4 & _ & Hids & _).
  apply execute_Some in Hex as (env' & cm' & w1' & t & d2 & Hp' & _ & Ht & _ & ->).
  rewrite Hp in Hp'. injection Hp' as <- <- <-. simpl.
  rewrite <- (prepared_player _ _ _ _ _ _ _ _ _ Hp Hids Hd Hv), <- Hsame.
  - unfold env_get. by rewrite Ht.
  - apply reserved_not_flag. set_solver.
Qed.

Lemma player_variable_shadows_url_witness :
  exists r w',
    execute (MiniLua.interp 8) shadow_sandbox "" (new_world shadow_heap)
      = Ret (Some r) w' /\
    r_url r = PyStr "https://cave.com".
Proof.
  run_prepare shadow_sandbox (new_world shadow_heap).
  run_execute (MiniLua.interp 8) shadow_sandbox "" (new_world shadow_heap) shadow_heap.
  exists r, w'. split; [reflexivity|].
  apply (player_variable_shadows_url (MiniLua.interp 8) shadow_sandbox ""
           (new_world shadow_heap) env cm w1 r w'
           {[ "url" := PyStr "https://cave.com" ]}).
  - exact Hp.
  - reflexivity.
  - exact Hex.
  - reflexivity.
  - by rewrite (execute_empty_script_world 7 _ _ _ _ _ _ _ Hp Hex).
Defined.


(** X6. The flag of a choice takes the place of a player variable of the
    same name: when the script leaves it alone, the returned player data
    has [True] under that name, whatever the input value was. *)
Theorem choice_flag_overwrites_player_variable (L : LuaInterp) self script w env cm w1
    r w' (ids : list string) (d' : gmap string PyVal) id :
  prepare self w = Ret (env, cm) w1 ->
  node_choice_ids self w = Ret ids w ->
  execute L self script w = Ret (Some r) w' ->
  py_items (player_data self) w' = Ret d' w' ->
  id ∈ ids ->
  is_Some (d' !! flag_name (to_lua_safe_id id)) ->
  env_get w' env (flag_name (to_lua_safe_id id))
    = env_get w1 env (flag_name (to_lua_safe_id id)) ->
  r_player_data r !! flag_name (to_lua_safe_id id) = Some (PyBool true).
Proof.
  intros Hp Hids Hex Hd' Hin [v Hv] Hsame.
  destruct (execute_Some_prepared _ _ _ _ _ _ _ _ _ Hp Hex)
    as (t & d2 & _ & Ht & Hd2 & Hpd & _).
  rewrite Hd' in Hd2. injection Hd2 as <-.
  rewrite Hpd, new_player_data_lookup, Hv. simpl. f_equal.
  rewrite (prepared_flag _ _ _ _ _ _ _ Hp Hids Hin) in Hsame.
  unfold env_get in Hsame. rewrite Ht in Hsame. simpl in Hsame. by rewrite Hsame.
Qed.

Lemma choice_flag_overwrites_player_variable_witness :
  exists r w',
    execute (MiniLua.interp 8) flag_clash_sandbox "" (new_world flag_clash_heap)
      = Ret (Some r) w' /\
    r_player_data r !! flag_name (to_lua_safe_id "a") = Some (PyBool true).
Proof.
  run_prepare flag_clash_sandbox (new_world flag_clash_heap).
  run_choice_ids flag_clash_sandbox (new_world flag_clash_heap).
  run_execute (MiniLua.interp 8) flag_clash_sandbox "" (new_world flag_clash_heap)
              flag_clash_heap.
  exists r, w'. split; [reflexivity|].
  apply (choice_flag_overwrites_player_variable (MiniLua.interp 8) flag_clash_sandbox ""
           (new_world flag_clash_heap) env cm w1 r w' ["a"]
           {[ "choice_a" := PyInt 5 ]} "a").
  - exact Hp.
  - exact Hids.
  - exact Hex.
  - unfold py_items. simpl. rewrite Hheap. reflexivity.
  - apply list_elem_of_singleton. reflexivity.
  - exists (PyInt 5). reflexivity.
  - by rewrite (execute_empty_script_world 7 _ _ _ _ _ _ _ Hp Hex).
Defined.

(** ** Inputs of the wrong shape *)

Lemma py_get_not_a_dict w v key :
  not_a_dict w v -> py_get v key w = Raise AttributeError w.
Proof.
  destruct v; simpl; try done.
  intros [xs ->]. reflexivity.
Qed.

Lemma py_items_not_a_dict w v :
  not_a_dict w v -> py_items v w = Raise AttributeError w.
Proof.
  destruct v; simpl; try done.
  intros [xs ->]. reflexivity.
Qed.

(** X7. A node that is not a dict (None, a number, a string, a list) makes
    [execute] raise AttributeError at the first [.get]: the exception
    reaches the caller, nothing is printed and the script is not looked
    at. *)
Theorem node_not_a_dict_raises (L : LuaInterp) self script w :
  is_Some (lua_heap w !! 0%nat) ->
  not_a_dict w (cur_node self) ->
  execute L self script w = Raise AttributeError w.
Proof.
  intros [G HG] Hn.
  apply (execute_prepare_Raise L self script w AttributeError w).
  unfold prepare, mbind, M_bind, get_world. rewrite HG. simpl.
  by rewrite (py_get_not_a_dict _ _ _ Hn).
Qed.

Lemma node_not_a_dict_raises_witness :
  execute (MiniLua.interp 8) (mkSandbox PyNone (PyRef 4)) "energy = 1"
          (new_world forest_heap)
  = Raise AttributeError (new_world forest_heap).
Proof.
  apply (node_not_a_dict_raises (MiniLua.interp 8) (mkSandbox PyNone (PyRef 4))
           "energy = 1" (new_world forest_heap)).
  - eexists. reflexivity.
  - exact I.
Defined.

(** X8. Player data that is not a dict makes [execute] raise AttributeError
    at [.items()], after the node's context was read; the shared runtime,
    the caller's data and the output are as before the call. *)
Theorem player_data_not_a_dict_raises (L : LuaInterp) self script w l nd url_l desc_l ctbl :
  is_Some (lua_heap w !! 0%nat) ->
  cur_node self = PyRef l ->
  py_heap w !! l = Some (PyDict nd) ->
  py_to_lua (default (PyStr "") (nd !! "url")) = Some url_l ->
  py_to_lua (default (PyStr "") (nd !! "description")) = Some desc_l ->
  table_from (nd !! "choices") w = Ret ctbl w ->
  not_a_dict w (player_data self) ->
  execute L self script w = Raise AttributeError w.
Proof.
  intros [G HG] Hc Hnd Hu Hd Ht Hp.
  apply (execute_prepare_Raise L self script w AttributeError w).
  unfold prepare, mbind, M_bind, get_world. rewrite HG. simpl.
  unfold py_get. rewrite Hc.
  rewrite Hnd, Hu. cbn [lift_opt mret M_ret].
  rewrite Hnd, Hd. cbn [lift_opt mret M_ret].
  rewrite Hnd, Ht.
  by rewrite (py_items_not_a_dict _ _ Hp).
Qed.

Lemma player_data_not_a_dict_raises_witness :
  execute (MiniLua.interp 8) (mkSandbox (PyRef 0) (PyRef 1)) "energy = 1"
          (new_world forest_heap)
  = Raise AttributeError (new_world forest_heap).
Proof.
  apply (player_data_not_a_dict_raises (MiniLua.interp 8) (mkSandbox (PyRef 0) (PyRef 1))
           "energy = 1" (new_world forest_heap) 0%nat
           {[ "url" := PyStr "https://forest.com";
              "description" := PyStr "The trees whisper.";
              "choices" := PyRef 1 ]}
           (LStr "https://forest.com") (LStr "The trees whisper.")
           (default ∅ (table_from_seq 1 [PyRef 2; PyRef 3] ∅))).
  - eexists. reflexivity.
  - reflexivity.
  - reflexivity.
  - reflexivity.
  - reflexivity.
  - reflexivity.
  - exists [PyRef 2; PyRef 3]. reflexivity.
Defined.

(** ** What the environment holds for the node *)

Lemma prepare_Ret_node self w env cm w1 :
  prepare self w = Ret (env, cm) w1 ->
  exists l nd G url_l desc_l d ids env4 ctbl,
    cur_node self = PyRef l /\
    py_heap w !! l = Some (PyDict nd) /\
    lua_heap w !! 0%nat = Some G /\
    env = length (lua_heap w) /\
    py_to_lua (default (PyStr "") (nd !! "url")) = Some url_l /\
    py_to_lua (default (PyStr "") (nd !! "description")) = Some desc_l /\
    table_from (nd !! "choices") w = Ret ctbl w /\
    py_items (player_data self) w = Ret d w /\
    node_choice_ids self w = Ret ids w /\
    inject_player d (context_env G url_l desc_l env) = Some env4 /\
    cm = choice_map_of ids ∅ /\
    w1 = set_lua_heap (lua_heap w ++ [set_flags ids env4; ctbl]) w.
Proof.
  unfold prepare. intros H.
  apply bind_Ret in H as (w0 & w0' & Hw & H). injection Hw as <- <-.
  apply bind_Ret in H as (G & ? & HG & H). apply lift_opt_Ret in HG as [HG ->].
  apply bind_Ret in H as (url & ? & Hurl & H).
  apply py_get_Ret in Hurl as (-> & l & nd & Hc & Hnd & ->).
  apply bind_Ret in H as (url_l & ? & Hul & H). apply lift_opt_Ret in Hul as [Hul ->].
  apply bind_Ret in H as (desc & ? & Hdesc & H).
  apply py_get_Ret in Hdesc as (-> & l' & nd' & Hc' & Hnd' & ->).
  rewrite Hc in Hc'. injection Hc' as <-. rewrite Hnd in Hnd'. injection Hnd' as <-.
  apply bind_Ret in H as (desc_l & ? & Hdl & H). apply lift_opt_Ret in Hdl as [Hdl ->].
  apply bind_Ret in H as (choices & ? & Hch & H).
  pose proof Hch as Hch0.
  apply py_get_Ret in Hch0 as (-> & l' & nd' & Hc' & Hnd' & ->).
  rewrite Hc in Hc'. injection Hc' as <-. rewrite Hnd in Hnd'. injection Hnd' as <-.
  apply bind_Ret in H as (ctbl & ? & Htf & H).
  pose proof (table_from_Ret _ _ _ _ Htf) as ->.
  apply bind_Ret in H as (d & ? & Hit & H).
  pose proof (py_items_Ret _ _ _ _ Hit) as [-> _].
  apply bind_Ret in H as (env4 & ? & Hip & H). apply lift_opt_Ret in Hip as [Hip ->].
  apply bind_Ret in H as (choices' & ? & Hch' & H).
  pose proof (py_get_Ret _ _ _ _ _ Hch') as [-> _].
  apply bind_Ret in H as (cs & w2 & Hcs & H).
  assert (w2 = w) as ->.
  { destruct choices' as [c|]; simpl in Hcs.
    - by apply py_iter_Ret in Hcs.
    - by injection Hcs as _ ->. }
  apply bind_Ret in H as ([cm' env5] & w3 & Hic & H).
  apply inject_choices_Ret in Hic as (-> & ids & Hids & -> & ->).
  apply bind_Ret in H as ([] & w4 & Hput & H).
  injection Hput as <-. injection H as <- <- <-.
  exists l, nd, G, url_l, desc_l, d, ids, env4, ctbl.
  repeat split; try done.
  unfold node_choice_ids, mbind, M_bind. rewrite Hch', Hcs. exact Hids.
Qed.

Lemma prepared_context self w env cm w1 l nd d g :
  prepare self w = Ret (env, cm) w1 ->
  cur_node self = PyRef l ->
  py_heap w !! l = Some (PyDict nd) ->
  py_items (player_data self) w = Ret d w ->
  g ∈ ["url"; "description"] ->
  d !! g = None ->
  Some (env_get w1 env g) = py_to_lua (default (PyStr "") (nd !! g)).
Proof.
  intros Hp Hc Hnd Hd Hg Hdg.
  apply prepare_Ret_node in Hp
    as (l' & nd' & G & url_l & desc_l & d' & ids & env4 & ctbl & Hc' & Hnd' & HG & -> &
        Hu & Hde & Htf & Hd' & Hids & Hip & -> & ->).
  rewrite Hc in Hc'. injection Hc' as <-. rewrite Hnd in Hnd'. injection Hnd' as <-.
  rewrite Hd in Hd'. injection Hd' as <-.
  unfold env_get. simpl. rewrite lookup_app_r by done. rewrite Nat.sub_diag. simpl.
  rewrite set_flags_get.
  rewrite bool_decide_eq_false_2
    by (apply reserved_not_flag, elem_of_app; right; revert Hg;
        rewrite !elem_of_cons; tauto).
  rewrite (inject_player_get _ _ _ Hip), Hdg.
  unfold context_env.
  rewrite !elem_of_cons, elem_of_nil in Hg. destruct Hg as [->|[->|Hg]]; [| |done].
  - rewrite tbl_get_set_ne by done. rewrite tbl_get_set_ne by done.
    by rewrite tbl_get_set_eq.
  - rewrite tbl_get_set_ne by done. by rewrite tbl_get_set_eq.
Qed.

Lemma choice_bools_empty t : choice_bools t ∅ = ∅.
Proof. unfold choice_bools. by rewrite map_fold_empty. Qed.

(** X9. The defaults of the node's context.  In the environment [url] and
    [description] are the node's values and the empty string when the node
    has no such key (unless a player variable has the name); a node without
    [choices] gives an empty table of choices, no flag, and an empty
    [choices_visibility] whatever the script is. *)
Theorem context_defaults (L : LuaInterp) self w env cm w1 l nd d :
  prepare self w = Ret (env, cm) w1 ->
  cur_node self = PyRef l ->
  py_heap w !! l = Some (PyDict nd) ->
  py_items (player_data self) w = Ret d w ->
  (forall g, g ∈ ["url"; "description"] -> d !! g = None ->
     match nd !! g with
     | Some v => py_to_lua v = Some (env_get w1 env g)
     | None => env_get w1 env g = LStr ""
     end) /\
  (nd !! "choices" = None ->
     lua_heap w1 !! S env = Some ∅ /\
     (forall script r w',
        execute L self script w = Ret (Some r) w' -> r_choices_visibility r = ∅)).
Proof.
  intros Hp Hc Hnd Hd. split.
  - intros g Hg Hdg.
    pose proof (prepared_context _ _ _ _ _ _ _ _ _ Hp Hc Hnd Hd Hg Hdg) as H.
    destruct (nd !! g) as [v|]; simpl in H; [done|]. by injection H as ->.
  - intros Hno.
    pose proof Hp as Hp'.
    apply prepare_Ret_node in Hp'
      as (l' & nd' & G & url_l & desc_l & d' & ids & env4 & ctbl & Hc' & Hnd' & HG & -> &
          Hu & Hde & Htf & Hd' & Hids & Hip & -> & ->).
    rewrite Hc in Hc'. injection Hc' as <-. rewrite Hnd in Hnd'. injection Hnd' as <-.
    rewrite Hno in Htf. injection Htf as <-.
    assert (ids = []) as ->.
    { unfold node_choice_ids, mbind, M_bind, py_get in Hids.
      rewrite Hc, Hnd, Hno in Hids. simpl in Hids. by injection Hids as <-. }
    split.
    + simpl. rewrite lookup_app_r by (simpl; lia).
      by replace (S (length (lua_heap w)) - length (lua_heap w))%nat with 1%nat by lia.
    + intros script r w' Hex.
      destruct (execute_Some_prepared _ _ _ _ _ _ _ _ _ Hp Hex)
        as (t & d2 & _ & _ & _ & _ & ->).
      apply choice_bools_empty.
Qed.

Lemma context_defaults_witness :
  exists env cm w1,
    prepare bare_sandbox (new_world bare_heap) = Ret (env, cm) w1 /\
    env_get w1 env "url" = LStr "" /\
    py_to_lua (PyStr "A cave.") = Some (env_get w1 env "description") /\
    lua_heap w1 !! S env = Some ∅ /\
    (forall script r w',
       execute (MiniLua.interp 8) bare_sandbox script (new_world bare_heap)
         = Ret (Some r) w' ->
       r_choices_visibility r = ∅).
Proof.
  run_prepare bare_sandbox (new_world bare_heap).
  exists env, cm, w1. split; [reflexivity|].
  destruct (context_defaults (MiniLua.interp 8) bare_sandbox (new_world bare_heap)
              env cm w1 0%nat {[ "description" := PyStr "A cave." ]} ∅
              Hp eq_refl eq_refl eq_refl) as [Hctx Hch].
  split; [|split].
  - apply (Hctx "url"); [|reflexivity].
    apply list_elem_of_here.
  - apply (Hctx "description"); [|reflexivity].
    apply list_elem_of_further, list_elem_of_here.
  - apply Hch. reflexivity.
Defined.

(** ** Exceptions of the injection *)

(** X10. The injection (steps 1 and 2) is outside the [try]: an exception
    it raises reaches the caller of [execute] as it is, for every script
    and interpreter; nothing was printed and the runtime got no table. *)
Theorem injection_exception_reaches_caller (L : LuaInterp) self script w e w' :
  prepare self w = Raise e w' ->
  w' = w /\ execute L self script w = Raise e w.
Proof.
  intros Hp. split.
  - exact (prepare_Raise _ _ _ _ Hp).
  - exact (execute_prepare_Raise L _ script _ _ _ Hp).
Qed.

Lemma injection_exception_reaches_caller_witness :
  execute (MiniLua.interp 8) string_choice_sandbox "energy = 1"
          (new_world string_choice_heap)
  = Raise TypeError (new_world string_choice_heap).
Proof.
  compute_eq (outcome (prepare string_choice_sandbox (new_world string_choice_heap))) Ho.
  destruct (prepare string_choice_sandbox (new_world string_choice_heap))
    as [a w1|e w1| |] eqn:Hp; try discriminate Ho.
  injection Ho as ->.
  exact (proj2 (injection_exception_reaches_caller (MiniLua.interp 8) string_choice_sandbox
                  "energy = 1" (new_world string_choice_heap) TypeError w1 Hp)).
Defined.

(** The loop over the choices stops at the first one without an [id]. *)
Lemma inject_choices_missing_id w pre l rec post : forall cm env,
  Forall (choice_record w) pre ->
  py_heap w !! l = Some (PyDict rec) ->
  rec !! "id" = None ->
  inject_choices (pre ++ PyRef l :: post) cm env w = Raise (KeyError "id") w.
Proof.
  induction pre as [|c pre IH]; intros cm env Hpre Hl Hrec; simpl.
  - unfold mbind, M_bind, py_getitem_id. by rewrite Hl, Hrec.
  - apply Forall_cons in Hpre as [(lc & dc & s & -> & Hlc & Hid) Hpre].
    unfold mbind, M_bind, py_getitem_id at 1. rewrite Hlc, Hid.
    by apply IH.
Qed.


Lemma table_from_seq_total xs : forall i t,
  Forall fits_lua xs -> is_Some (table_from_seq i xs t).
Proof.
  induction xs as [|x xs IH]; intros i t Hxs; simpl; [by eexists|].
  apply Forall_cons in Hxs as [[lv Hx] Hxs]. rewrite Hx. by apply IH.
Qed.

Lemma inject_player_total d t :
  map_Forall (fun _ v => fits_lua v) d -> is_Some (inject_player d t).
Proof.
  unfold inject_player.
  pose (P := fun (acc : option LuaTable) (m : gmap string PyVal) =>
               map_Forall (fun _ v => fits_lua v) m -> is_Some acc).
  enough (P (map_fold (fun k v acc =>
              match acc, py_to_lua v with
              | Some t, Some lv => Some (tbl_set t (LStr k) lv)
              | _, _ => None
              end) (Some t) d) d) as H by exact H.
  apply map_fold_weak_ind; unfold P.
  - intros _. by eexists.
  - intros k v m acc Hk IH Hall.
    apply map_Forall_insert in Hall as [[lv Hv] Hall]; [|done].
    destruct (IH Hall) as [t' ->]. rewrite Hv. by eexists.
Qed.

(** On a node and player data of the expected shape the injection comes
    down to the loop over the choices. *)
Lemma prepare_shaped self w cs d :
  is_Some (lua_heap w !! 0%nat) ->
  node_choices self w cs ->
  Forall fits_lua cs ->
  player_vars self w d ->
  exists env4 ctbl,
    prepare self w =
    match inject_choices cs ∅ env4 w with
    | Ret (cm, env5) w' =>
        Ret (length (lua_heap w), cm) (set_lua_heap (lua_heap w ++ [env5; ctbl]) w)
    | Raise e w' => Raise e w'
    | Hang => Hang
    | Unsupported => Unsupported
    end.
Proof.
  intros [G HG] (ln & nd & Hc & Hnd & [url_l Hu] & [desc_l Hd] & Hch) Hcs
         (lp & Hpd & Hlp & Hall).
  destruct (inject_player_total d
              (tbl_set (tbl_set (tbl_set (white_room G) (LStr "url") url_l)
                                (LStr "description") desc_l)
                       (LStr "choices") (LTable (S (length (lua_heap w)))))
              Hall) as [env4 Hip].
  assert (exists ctbl, table_from (nd !! "choices") w = Ret ctbl w /\
                       from_option py_iter (mret []) (nd !! "choices") w = Ret cs w)
    as (ctbl & Htf & Hit).
  { destruct (nd !! "choices") as [[| | | |lcs| |]|]; try done.
    - destruct (table_from_seq_total cs 1 ∅ Hcs) as [t Ht].
      exists t. simpl. rewrite Hch, Ht. done.
    - subst cs. by exists ∅. }
  exists env4, ctbl.
  unfold prepare, mbind, M_bind, get_world. rewrite HG.
  cbn [lift_opt mret M_ret].
  unfold py_get, py_items. rewrite Hc, Hpd.
  rewrite Hnd, Hu. cbn [lift_opt mret M_ret].
  rewrite Hnd, Hd. cbn [lift_opt mret M_ret].
  rewrite Hnd, Htf, Hlp, Hip. cbn [lift_opt mret M_ret].
  rewrite Hnd, Hit.
  by destruct (inject_choices cs ∅ env4 w) as [[cm env5] w'| | |].
Qed.

Lemma choice_record_fits w cs : Forall (choice_record w) cs -> Forall fits_lua cs.
Proof.
  intros H. eapply Forall_impl; [exact H|].
  intros c (lc & dc & s & -> & _). by eexists.
Qed.

Lemma inject_choices_records w cs : forall cm env,
  Forall (choice_record w) cs ->
  exists cm' env', inject_choices cs cm env w = Ret (cm', env') w.
Proof.
  induction cs as [|c cs IH]; intros cm env Hcs; simpl; [by eexists _, _|].
  apply Forall_cons in Hcs as [(lc & dc & s & -> & Hlc & Hid) Hcs].
  unfold mbind, M_bind, py_getitem_id at 1. rewrite Hlc, Hid. by apply IH.
Qed.

(** X11. A choice without an [id] makes the call raise KeyError, whatever
    the script is and wherever the choice stands in the list: the choices
    before it do not help, the ones after it are not looked at, and no
    result is returned. *)
Theorem choice_without_id_raises (L : LuaInterp) self script w pre l rec post d :
  is_Some (lua_heap w !! 0%nat) ->
  node_choices self w (pre ++ PyRef l :: post) ->
  Forall (choice_record w) pre ->
  py_heap w !! l = Some (PyDict rec) ->
  rec !! "id" = None ->
  Forall fits_lua post ->
  player_vars self w d ->
  execute L self script w = Raise (KeyError "id") w.
Proof.
  intros HG Hn Hpre Hl Hrec Hpost Hd.
  apply (execute_prepare_Raise L self script w (KeyError "id") w).
  assert (Forall fits_lua (pre ++ PyRef l :: post)) as Hfits.
  { apply Forall_app. split; [by apply (choice_record_fits w)|].
    apply Forall_cons. split; [by eexists|done]. }
  destruct (prepare_shaped self w _ d HG Hn Hfits Hd) as (env4 & ctbl & ->).
  by rewrite (inject_choices_missing_id w pre l rec post ∅ env4 Hpre Hl Hrec).
Qed.

Lemma choice_without_id_raises_witness :
  execute (MiniLua.interp 8) second_missing_sandbox "energy = 1"
          (new_world second_missing_heap)
  = Raise (KeyError "id") (new_world second_missing_heap).
Proof.
  apply (choice_without_id_raises (MiniLua.interp 8) second_missing_sandbox "energy = 1"
           (new_world second_missing_heap) [PyRef 2] 3%nat {[ "text" := PyStr "Run" ]}
           [PyRef 2] ∅).
  - eexists. reflexivity.
  - exists 0%nat, {[ "choices" := PyRef 1 ]}.
    split; [reflexivity|]. split; [reflexivity|].
    split; [eexists; reflexivity|]. split; [eexists; reflexivity|].
    reflexivity.
  - constructor; [|constructor].
    exists 2%nat, {[ "id" := PyStr "a" ]}, "a". repeat split; reflexivity.
  - reflexivity.
  - reflexivity.
  - constructor; [eexists; reflexivity|constructor].
  - exists 4%nat. split; [reflexivity|]. split; [reflexivity|].
    apply map_Forall_empty.
Defined.

(** ** What a run leaves of the Python objects *)

Lemma index_same_world b k w v w' : MiniLua.index b k w = MiniLua.LOk v w' -> w' = w.
Proof.
  unfold MiniLua.index. destruct b; try discriminate.
  - destruct (lua_heap w !! r); [|discriminate]. by intros [= <- <-].
  - destruct (py_heap w !! l) as [[d|]|]; try discriminate.
    destruct k; try discriminate.
    destruct (d !! s) as [pv|]; [|discriminate].
    destruct (py_to_lua pv); [|discriminate]. by intros [= <- <-].
Qed.

Lemma eval_same_heaps env e : forall w v w',
  MiniLua.eval e env w = MiniLua.LOk v w' -> same_heaps w w'.
Proof.
  induction e as [|b|n|s|x|e k IHe IHk|f args IHf IHargs|op a b IHa IHb
                  |a b IHa IHb|a b IHa IHb|a IHa|a IHa] using expr_ind_args;
    intros w v w' He.
  - injection He as <- <-. apply same_heaps_refl.
  - injection He as <- <-. apply same_heaps_refl.
  - simpl in He. destruct (lua_Integer_range n); [|discriminate].
    injection He as <- <-. apply same_heaps_refl.
  - injection He as <- <-. apply same_heaps_refl.
  - simpl in He. destruct (lua_heap w !! env) as [t|] eqn:Ht; [|discriminate].
    injection He as <- <-. apply same_heaps_refl.
  - simpl in He.
    destruct (MiniLua.eval e env w) as [bv w1| |] eqn:E1; try discriminate.
    pose proof (IHe _ _ _ E1) as H1. simpl in He.
    destruct (MiniLua.eval k env w1) as [kv w2| |] eqn:E2; try discriminate.
    pose proof (IHk _ _ _ E2) as H2. simpl in He.
    apply index_same_world in He as ->. by eapply same_heaps_trans.
  - rewrite eval_ECall in He.
    destruct (MiniLua.eval f env w) as [fv w1| |] eqn:E1; try discriminate.
    pose proof (IHf _ _ _ E1) as H1. simpl in He.
    assert (forall w1 avs w2,
              eval_args env args w1 = MiniLua.LOk avs w2 -> same_heaps w1 w2) as Hargs.
    { clear -IHargs. induction IHargs as [|a args Ha _ IH]; intros w1 avs w2 He.
      - injection He as <- <-. apply same_heaps_refl.
      - simpl in He.
        destruct (MiniLua.eval a env w1) as [v wa| |] eqn:Ea; try discriminate.
        pose proof (Ha _ _ _ Ea) as Hs. simpl in He.
        destruct (eval_args env args wa) as [vs wb| |] eqn:Er; try discriminate.
        injection He as <- <-.
        eapply same_heaps_trans; [exact Hs|]. by eapply IH. }
    destruct (eval_args env args w1) as [avs w2| |] eqn:E2; try discriminate.
    pose proof (Hargs _ _ _ E2) as H2. simpl in He.
    destruct (call_no_ref env _ _ _ _ _ He) as [H3 _].
    eapply same_heaps_trans; [exact H1|]. eapply same_heaps_trans; [exact H2|exact H3].
  - simpl in He.
    destruct (MiniLua.eval a env w) as [va w1| |] eqn:E1; try discriminate.
    pose proof (IHa _ _ _ E1) as H1. simpl in He.
    destruct (MiniLua.eval b env w1) as [vb w2| |] eqn:E2; try discriminate.
    pose proof (IHb _ _ _ E2) as H2. simpl in He.
    destruct (binary_no_ref env _ _ _ _ _ _ He) as [-> _].
    by eapply same_heaps_trans.
  - simpl in He.
    destruct (MiniLua.eval a env w) as [va w1| |] eqn:E1; try discriminate.
    pose proof (IHa _ _ _ E1) as H1. simpl in He.
    destruct (MiniLua.truthy va).
    + eapply same_heaps_trans; [exact H1|]. by eapply IHb.
    + by injection He as <- <-.
  - simpl in He.
    destruct (MiniLua.eval a env w) as [va w1| |] eqn:E1; try discriminate.
    pose proof (IHa _ _ _ E1) as H1. simpl in He.
    destruct (MiniLua.truthy va).
    + by injection He as <- <-.
    + eapply same_heaps_trans; [exact H1|]. by eapply IHb.
  - simpl in He.
    destruct (MiniLua.eval a env w) as [va w1| |] eqn:E1; try discriminate.
    pose proof (IHa _ _ _ E1) as H1. simpl in He.
    by injection He as <- <-.
  - simpl in He.
    destruct (MiniLua.eval a env w) as [va w1| |] eqn:E1; try discriminate.
    pose proof (IHa _ _ _ E1) as H1. simpl in He.
    destruct va; simpl in He; try discriminate.
    by injection He as <- <-.
Qed.

Lemma same_kinds_refl w : same_kinds w w.
Proof.
  intros l. destruct (py_heap w !! l) as [[d|xs]|]; [by exists d|done|done].
Qed.

Lemma same_kinds_trans w1 w2 w3 :
  same_kinds w1 w2 -> same_kinds w2 w3 -> same_kinds w1 w3.
Proof.
  intros H1 H2 l. specialize (H1 l). specialize (H2 l).
  destruct (py_heap w1 !! l) as [[d|xs]|].
  - destruct H1 as [d' H1]. by rewrite H1 in H2.
  - by rewrite H1 in H2.
  - by rewrite H1 in H2.
Qed.

Lemma same_heaps_kinds w w' : same_heaps w w' -> same_kinds w w'.
Proof. intros [_ Hp] l. rewrite Hp. apply same_kinds_refl. Qed.

Lemma setindex_same_kinds tv kv v w u w' :
  MiniLua.setindex tv kv v w = MiniLua.LOk u w' -> same_kinds w w'.
Proof.
  destruct u. unfold MiniLua.setindex. destruct tv; try discriminate.
  - destruct (lua_heap w !! r) as [t|]; [|discriminate].
    destruct kv; try discriminate; intros [= <-] l'; exact (same_kinds_refl w l').
  - destruct (py_heap w !! l) as [[d|]|] eqn:Hd; try discriminate.
    destruct kv; try discriminate. intros [= <-] l'. simpl.
    destruct (decide (l = l')) as [<-|Hne].
    + rewrite Hd. eexists. apply list_lookup_insert_eq. by eapply lookup_lt_Some.
    + rewrite list_lookup_insert_ne by done. exact (same_kinds_refl w l').
Qed.

#[local] Opaque MiniLua.exec_block MiniLua.exec_stat.

(** A run changes the Python objects only in the entries of dicts. *)
Lemma exec_same_kinds env fuel :
  (forall b w w', MiniLua.exec_block fuel b env w = MiniLua.SOk w' -> same_kinds w w') /\
  (forall s w w', MiniLua.exec_stat fuel s env w = MiniLua.SOk w' -> same_kinds w w').
Proof.
  induction fuel as [|f [IHb IHs]]; [split; intros; discriminate|].
  split.
  - intros b w w'. rewrite exec_block_S. destruct b as [|s r].
    + intros [= <-]. apply same_kinds_refl.
    + destruct (MiniLua.exec_stat f s env w) as [w1| | |] eqn:Es; try discriminate.
      intros Er. eapply same_kinds_trans; [by eapply IHs|by eapply IHb].
  - intros s w w'. rewrite exec_stat_S.
    destruct s as [x e|t k e|fn args|c th el|c body].
    + destruct (MiniLua.eval e env w) as [v w1| |] eqn:Ee; try discriminate. simpl.
      apply eval_same_heaps, same_heaps_kinds in Ee.
      destruct (lua_heap w1 !! env) as [t|]; [|discriminate].
      intros [= <-]. eapply same_kinds_trans; [exact Ee|].
      intros l. exact (same_kinds_refl w1 l).
    + destruct (MiniLua.eval t env w) as [tv w1| |] eqn:Et; try discriminate. simpl.
      apply eval_same_heaps, same_heaps_kinds in Et.
      destruct (MiniLua.eval k env w1) as [kv w2| |] eqn:Ek; try discriminate. simpl.
      apply eval_same_heaps, same_heaps_kinds in Ek.
      destruct (MiniLua.eval e env w2) as [v w3| |] eqn:Ee; try discriminate. simpl.
      apply eval_same_heaps, same_heaps_kinds in Ee.
      destruct (MiniLua.setindex tv kv v w3) as [u w4| |] eqn:Esi; try discriminate.
      simpl. intros [= <-]. apply setindex_same_kinds in Esi.
      eauto using same_kinds_trans.
    + destruct (MiniLua.eval (MiniLua.ECall fn args) env w) as [v w1| |] eqn:Ee;
        try discriminate. simpl. intros [= <-].
      by apply eval_same_heaps, same_heaps_kinds in Ee.
    + destruct (MiniLua.eval c env w) as [cv w1| |] eqn:Ec; try discriminate. simpl.
      apply eval_same_heaps, same_heaps_kinds in Ec.
      intros Eb. eapply same_kinds_trans; [exact Ec|by eapply IHb].
    + destruct (MiniLua.eval c env w) as [cv w1| |] eqn:Ec; try discriminate. simpl.
      apply eval_same_heaps, same_heaps_kinds in Ec.
      destruct (MiniLua.truthy cv).
      * destruct (MiniLua.exec_block f body env w1) as [w2| | |] eqn:Eb; try discriminate.
        intros Ew. eapply same_kinds_trans; [exact Ec|].
        eapply same_kinds_trans; [by eapply IHb|by eapply IHs].
      * by intros [= <-].
Qed.

#[local] Transparent MiniLua.exec_block MiniLua.exec_stat.

Lemma prepare_well_shaped self w :
  well_shaped self w ->
  exists env cm w1, prepare self w = Ret (env, cm) w1.
Proof.
  intros (HG & (cs & Hn & Hcs) & (d & Hd)).
  destruct (prepare_shaped self w cs d HG Hn (choice_record_fits _ _ Hcs) Hd)
    as (env4 & ctbl & ->).
  destruct (inject_choices_records w cs ∅ env4 Hcs) as (cm & env5 & ->).
  by eexists _, _, _.
Qed.

(** X12. On a node and player data of the expected shape no exception
    leaves [execute], whatever the script: the injection succeeds, the
    failures of the script are caught, and the extraction finds the player
    data a dict as before. *)
Theorem well_shaped_call_never_raises fuel self script w :
  well_shaped self w ->
  (exists env cm w1, prepare self w = Ret (env, cm) w1) /\
  (forall e w', execute (MiniLua.interp fuel) self script w ≠ Raise e w').
Proof.
  intros Hws. pose proof (prepare_well_shaped self w Hws) as (env & cm & w1 & Hp).
  split; [by eexists _, _, _|].
  intros e w'. unfold execute, mbind, M_bind. rewrite Hp.
  unfold run_wrapper, safe_wrapper. simpl.
  destruct (MiniLua.load script) as [c|err|]; try discriminate.
  unfold MiniLua.pcall.
  destruct (MiniLua.exec_block fuel c env w1) as [w2|v w2| |] eqn:Ex; try discriminate.
  apply (proj1 (exec_same_kinds env fuel)) in Ex.
  destruct Hws as (_ & _ & d & lp & Hpd & Hlp & _).
  destruct (prepared_env _ _ _ _ _ Hp) as (_ & _ & _ & _ & _ & _ & _ & _ & _ & _ & _ & Hpy & _).
  specialize (Ex lp). rewrite Hpy, Hlp in Ex. destruct Ex as [d' Hd'].
  unfold extract, mbind, M_bind, get_world.
  destruct (lua_heap w2 !! env); simpl; [|discriminate].
  unfold py_items. rewrite Hpd, Hd'. discriminate.
Qed.

(** The shape of the module's own test input. *)
Ltac forest_shape :=
  split; [eexists; reflexivity|]; split;
  [ exists [PyRef 2; PyRef 3]; split;
    [ exists 0%nat, {[ "url" := PyStr "https://forest.com";
                       "description" := PyStr "The trees whisper.";
                       "choices" := PyRef 1 ]};
      split; [reflexivity|]; split; [reflexivity|];
      split; [eexists; reflexivity|]; split; [eexists; reflexivity|]; reflexivity
    | constructor;
      [ exists 2%nat, {[ "id" := PyStr "52cd4b74-08d2-4709-8804-e6fa6deebe36";
                         "text" := PyStr "Stay" ]},
               "52cd4b74-08d2-4709-8804-e6fa6deebe36"; repeat split; reflexivity
      | constructor; [|constructor];
        exists 3%nat, {[ "id" := PyStr "3da81c9d-67bc-4419-ae5a-082c388a6d6d";
                         "text" := PyStr "Run" ]},
               "3da81c9d-67bc-4419-ae5a-082c388a6d6d"; repeat split; reflexivity ] ]
  | exists {[ "energy" := PyInt 20 ]}, 4%nat;
    split; [reflexivity|]; split; [reflexivity|];
    apply map_Forall_singleton; eexists; reflexivity ].

Lemma well_shaped_call_never_raises_witness :
  (exists env cm w1, prepare forest_sandbox (new_world forest_heap) = Ret (env, cm) w1) /\
  (forall e w',
     execute (MiniLua.interp 8) forest_sandbox "io.open('x')" (new_world forest_heap)
     ≠ Raise e w').
Proof.
  apply (well_shaped_call_never_raises 8 forest_sandbox "io.open('x')"
           (new_world forest_heap)).
  forest_shape.
Defined.

(** ** The shape of the result *)

Lemma execute_Some_env L self script w r w' :
  execute L self script w = Ret (Some r) w' ->
  exists cm w1 t d,
    prepare self w = Ret (length (lua_heap w), cm) w1 /\
    lua_heap w' !! length (lua_heap w) = Some t /\
    py_items (player_data self) w' = Ret d w' /\
    r = {| r_url := py_from_lua (tbl_get t (LStr "url"));
           r_description := py_from_lua (tbl_get t (LStr "description"));
           r_player_data := new_player_data t d;
           r_choices_visibility := choice_bools t cm |}.
Proof.
  intros Hex.
  apply execute_Some in Hex as (env & cm & w1 & t & d & Hp & _ & Ht & Hd & ->).
  pose proof Hp as Hp'.
  apply prepare_Ret in Hp' as (_ & _ & _ & _ & _ & _ & _ & _ & -> & _).
  by exists cm, w1, t, d.
Qed.

(** X13. The returned [player_data] has the keys of the player data, no
    more and no less, whatever the script did: a variable the script set
    to nil is not removed, it comes back as [None]. *)
Theorem removed_player_variable_comes_back_as_none (L : LuaInterp) self script w r w' d' :
  execute L self script w = Ret (Some r) w' ->
  py_items (player_data self) w' = Ret d' w' ->
  (forall k, is_Some (r_player_data r !! k) <-> is_Some (d' !! k)) /\
  (forall k, is_Some (d' !! k) ->
     env_get w' (length (lua_heap w)) k = LNil ->
     r_player_data r !! k = Some PyNone).
Proof.
  intros Hex Hd'.
  apply execute_Some_env in Hex as (cm & w1 & t & d & _ & Ht & Hd & ->).
  rewrite Hd' in Hd. injection Hd as <-. simpl. split.
  - intros k. rewrite new_player_data_lookup. by rewrite fmap_is_Some.
  - intros k [v Hv] Hnil. rewrite new_player_data_lookup, Hv. simpl.
    unfold env_get in Hnil. rewrite Ht in Hnil. simpl in Hnil. by rewrite Hnil.
Qed.

Lemma removed_player_variable_comes_back_as_none_witness :
  exists r w',
    execute (MiniLua.interp 8) forest_sandbox "energy = nil" (new_world forest_heap)
      = Ret (Some r) w' /\
    (forall k, is_Some (r_player_data r !! k) <->
               is_Some (({[ "energy" := PyInt 20 ]} : gmap string PyVal) !! k)) /\
    r_player_data r !! "energy" = Some PyNone.
Proof.
  compute_eq (observe_world
                (fun w' => env_get w' (length (lua_heap (new_world forest_heap))) "energy")
                (execute (MiniLua.interp 8) forest_sandbox "energy = nil"
                   (new_world forest_heap))) Hnil.
  run_execute (MiniLua.interp 8) forest_sandbox "energy = nil" (new_world forest_heap)
              forest_heap.
  injection Hnil as Hnil.
  exists r, w'. split; [reflexivity|].
  destruct (removed_player_variable_comes_back_as_none (MiniLua.interp 8) forest_sandbox
              "energy = nil" (new_world forest_heap) r w' {[ "energy" := PyInt 20 ]} Hex)
    as [Hkeys Hnone].
  - unfold py_items. simpl. rewrite Hheap. reflexivity.
  - split; [exact Hkeys|].
    apply Hnone; [by eexists|exact Hnil].
Defined.

(** X14. Every entry of [choices_visibility] is keyed by an identifier of
    the node's choices, and its value is what the flag of that identifier
    holds when the script ends: a boolean only if the script left one
    there. *)
Theorem choices_visibility_holds_the_final_flags (L : LuaInterp) self script w r w'
    (ids : list string) :
  node_choice_ids self w = Ret ids w ->
  execute L self script w = Ret (Some r) w' ->
  forall id v, r_choices_visibility r !! id = Some v ->
    id ∈ ids /\
    v = py_from_lua (env_get w' (length (lua_heap w)) (flag_name (to_lua_safe_id id))).
Proof.
  intros Hids Hex id v Hv.
  apply execute_Some_env in Hex as (cm & w1 & t & d & Hp & Ht & _ & ->).
  rewrite (prepared_choice_map _ _ _ _ _ _ Hp Hids) in Hv. simpl in Hv.
  rewrite choice_bools_lookup in Hv by apply choice_map_of_well_keyed.
  case_decide as Hcm; [|discriminate]. injection Hv as <-.
  apply choice_map_of_Some in Hcm as [Hin _]. split; [done|].
  unfold env_get, flag_key. by rewrite Ht.
Qed.

Lemma choices_visibility_holds_the_final_flags_witness :
  exists r w',
    execute (MiniLua.interp 8) flag_clash_sandbox "choice_a = 7"
            (new_world flag_clash_heap) = Ret (Some r) w' /\
    r_choices_visibility r !! "a" = Some (PyInt 7) /\
    (forall id v, r_choices_visibility r !! id = Some v ->
       id ∈ ["a"] /\
       v = py_from_lua (env_get w' (length (lua_heap (new_world flag_clash_heap)))
                          (flag_name (to_lua_safe_id id)))).
Proof.
  compute_eq (observe (fun r => r_choices_visibility r !! "a")
                (execute (MiniLua.interp 8) flag_clash_sandbox "choice_a = 7"
                   (new_world flag_clash_heap))) Hseven.
  run_choice_ids flag_clash_sandbox (new_world flag_clash_heap).
  run_execute (MiniLua.interp 8) flag_clash_sandbox "choice_a = 7"
              (new_world flag_clash_heap) flag_clash_heap.
  injection Hseven as Hseven.
  exists r, w'. split; [reflexivity|]. split; [exact Hseven|].
  exact (choices_visibility_holds_the_final_flags (MiniLua.interp 8) flag_clash_sandbox
           "choice_a = 7" (new_world flag_clash_heap) r w' ["a"] Hids Hex).
Defined.

(** ** Scripts that do nothing, scripts that do not end *)

(** X15. The way through Lua and back is the identity on the data: when the
    script runs and leaves the world as it was, [execute] returns the
    node's url and description (the empty string for a missing one), the
    player data as it was given, and [True] for every choice. *)
Theorem idle_script_returns_the_inputs (L : LuaInterp) self script w env cm w1 c l nd d
    (ids : list string) :
  prepare self w = Ret (env, cm) w1 ->
  cur_node self = PyRef l ->
  py_heap w !! l = Some (PyDict nd) ->
  py_items (player_data self) w = Ret d w ->
  node_choice_ids self w = Ret ids w ->
  lua_load L script = Loaded c ->
  lua_pcall L c env w1 = PReturn w1 ->
  exists r,
    execute L self script w = Ret (Some r) w1 /\
    ((forall k, is_Some (d !! k) -> LStr k ∉ flag_key <$> ids) ->
       r_player_data r = d) /\
    (d !! "url" = None -> r_url r = default (PyStr "") (nd !! "url")) /\
    (d !! "description" = None ->
       r_description r = default (PyStr "") (nd !! "description")) /\
    (forall id v, r_choices_visibility r !! id = Some v -> v = PyBool true).
Proof.
  intros Hp Hc Hnd Hd Hids Hload Hcall.
  destruct (prepared_env _ _ _ _ _ Hp)
    as (G & url_l & desc_l & d0 & ids0 & env4 & Hd0 & Hids0 & Hip & Hcm & Ht & Hpy & _).
  assert (py_items (player_data self) w1 = Ret d w1) as Hd1.
  { apply py_items_Ret in Hd as (_ & lp & Hlp & Hdl).
    unfold py_items. by rewrite Hlp, Hpy, Hdl. }
  eexists. split; [|split; [|split; [|split]]].
  - unfold execute, mbind, M_bind. rewrite Hp.
    unfold run_wrapper, safe_wrapper. rewrite Hload, Hcall.
    unfold extract, mbind, M_bind, get_world. rewrite Ht. simpl. rewrite Hd1. reflexivity.
  - intros Hclash. simpl. apply map_eq. intros k.
    rewrite new_player_data_lookup.
    destruct (d !! k) as [v|] eqn:Hk; [|done]. simpl. f_equal.
    rewrite <- (prepared_player _ _ _ _ _ _ _ _ _ Hp Hids Hd Hk) by (apply Hclash; by eexists).
    unfold env_get. by rewrite Ht.
  - intros Hno. simpl.
    assert (Some (env_get w1 env "url") = py_to_lua (default (PyStr "") (nd !! "url"))) as H.
    { apply (prepared_context _ _ _ _ _ _ _ _ _ Hp Hc Hnd Hd); [|done].
      apply list_elem_of_here. }
    unfold env_get in H. rewrite Ht in H. simpl in H.
    symmetry in H. by apply py_round_trip in H.
  - intros Hno. simpl.
    assert (Some (env_get w1 env "description")
            = py_to_lua (default (PyStr "") (nd !! "description"))) as H.
    { apply (prepared_context _ _ _ _ _ _ _ _ _ Hp Hc Hnd Hd); [|done].
      apply list_elem_of_further, list_elem_of_here. }
    unfold env_get in H. rewrite Ht in H. simpl in H.
    symmetry in H. by apply py_round_trip in H.
  - intros id v. simpl. rewrite (prepared_choice_map _ _ _ _ _ _ Hp Hids).
    rewrite choice_bools_lookup by apply choice_map_of_well_keyed.
    case_decide as Hcm'; [|discriminate]. intros [= <-].
    apply choice_map_of_Some in Hcm' as [Hin _].
    pose proof (prepared_flag _ _ _ _ _ _ _ Hp Hids Hin) as Hflag.
    unfold env_get in Hflag. rewrite Ht in Hflag. simpl in Hflag.
    unfold flag_key. by rewrite Hflag.
Qed.

Lemma idle_script_returns_the_inputs_witness :
  exists r w1,
    execute (MiniLua.interp 8) forest_sandbox "" (new_world forest_heap)
      = Ret (Some r) w1 /\
    r_player_data r = {[ "energy" := PyInt 20 ]} /\
    r_url r = PyStr "https://forest.com" /\
    r_description r = PyStr "The trees whisper." /\
    (forall id v, r_choices_visibility r !! id = Some v -> v = PyBool true).
Proof.
  run_prepare forest_sandbox (new_world forest_heap).
  run_choice_ids forest_sandbox (new_world forest_heap).
  destruct (idle_script_returns_the_inputs (MiniLua.interp 8) forest_sandbox ""
              (new_world forest_heap) env cm w1 [] 0%nat
              {[ "url" := PyStr "https://forest.com";
                 "description" := PyStr "The trees whisper.";
                 "choices" := PyRef 1 ]}
              {[ "energy" := PyInt 20 ]}
              ["52cd4b74-08d2-4709-8804-e6fa6deebe36";
               "3da81c9d-67bc-4419-ae5a-082c388a6d6d"]
              Hp eq_refl eq_refl eq_refl Hids)
    as (r & Hex & Hpd & Hurl & Hdesc & Hvis).
  - vm_compute. reflexivity.
  - reflexivity.
  - exists r, w1. split; [exact Hex|]. split; [|split; [|split]].
    + apply Hpd. intros k [v Hk].
      apply lookup_singleton_Some in Hk as [<- _].
      apply (bool_decide_unpack _). vm_compute. exact I.
    + apply Hurl. reflexivity.
    + apply Hdesc. reflexivity.
    + exact Hvis.
Defined.

(** X16. Nothing bounds the run of a script: on every input of the expected
    shape the loop [while true do end] keeps [execute] from returning, for
    any number of steps. *)
Theorem endless_loop_is_not_stopped self w :
  well_shaped self w ->
  forall fuel, execute (MiniLua.interp fuel) self "while true do end" w = Hang.
Proof.
  intros Hws fuel.
  destruct (prepare_well_shaped self w Hws) as (env & cm & w1 & Hp).
  unfold execute, mbind, M_bind. rewrite Hp.
  unfold run_wrapper, safe_wrapper.
  replace (lua_load (MiniLua.interp fuel) "while true do end")
    with (Loaded [MiniLua.SWhile (MiniLua.EBool true) []] : LoadRes (chunk (MiniLua.interp fuel)))
    by (vm_compute; reflexivity).
  simpl. unfold MiniLua.pcall. destruct fuel; [done|].
  rewrite exec_block_S, while_true_never_ends. done.
Qed.

Lemma endless_loop_is_not_stopped_witness :
  execute (MiniLua.interp 1000) forest_sandbox "while true do end"
          (new_world forest_heap) = Hang.
Proof.
  apply (fun H => endless_loop_is_not_stopped forest_sandbox (new_world forest_heap)
                    H 1000%nat).
  forest_shape.
Defined.

(** ** The module's test *)

(** X17. Run as a program, the module prints two lines, [Energy: 30] and
    [Run Visible: False], and ends without an exception. *)
Theorem main_prints_energy_and_visibility (fuel : nat) :
  (8 <= fuel)%nat ->
  exists w',
    main (MiniLua.interp fuel) (new_world forest_heap) = Ret tt w' /\
    stdout w' = ["Energy: 30"; "Run Visible: False"].
Proof.
  intros Hfuel.
  assert (main (MiniLua.interp fuel) (new_world forest_heap)
          = main (MiniLua.interp 8) (new_world forest_heap)) as ->.
  { unfold main, mbind, M_bind. by enough_fuel 8%nat. }
  compute_eq (observe_world stdout (main (MiniLua.interp 8) (new_world forest_heap))) Ho.
  compute_eq (returns (main (MiniLua.interp 8) (new_world forest_heap))) Hr.
  destruct (main (MiniLua.interp 8) (new_world forest_heap)) as [[] w'| | |];
    try discriminate Hr.
  injection Ho as Ho. by exists w'.
Qed.

Lemma main_prints_energy_and_visibility_witness :
  exists w',
    main (MiniLua.interp 100) (new_world forest_heap) = Ret tt w' /\
    stdout w' = ["Energy: 30"; "Run Visible: False"].
Proof. apply (main_prints_energy_and_visibility 100). lia. Defined.

(** ** The table of choices *)

Lemma table_from_seq_get xs : forall i t t',
  table_from_seq i xs t = Some t' ->
  forall j, tbl_get t' (LInt j) =
    if bool_decide (i <= j < i + Z.of_nat (length xs))%Z
    then default LNil (xs !! Z.to_nat (j - i) ≫= py_to_lua)
    else tbl_get t (LInt j).
Proof.
  induction xs as [|x xs IH]; intros i t t' H j; simpl in H.
  - injection H as <-. rewrite bool_decide_eq_false_2; [done|]. simpl. lia.
  - destruct (py_to_lua x) as [v|] eqn:Hx; [|discriminate].
    rewrite (IH _ _ _ H j). simpl length.
    destruct (decide (j = i)) as [->|Hne].
    + rewrite bool_decide_eq_false_2 by lia.
      rewrite bool_decide_eq_true_2 by lia.
      rewrite Z.sub_diag. simpl. rewrite Hx. simpl. apply tbl_get_set_eq.
    + rewrite tbl_get_set_ne by congruence.
      destruct (decide (i + 1 <= j < i + 1 + Z.of_nat (length xs))%Z) as [Hin|Hout].
      * rewrite !bool_decide_eq_true_2 by lia.
        replace (Z.to_nat (j - i)) with (S (Z.to_nat (j - (i + 1)))) by lia. done.
      * rewrite !bool_decide_eq_false_2 by lia. done.
Qed.

(** X18. [choices] in the environment is a Lua table that counts from 1:
    entry [i + 1] is the i-th element of the node's list and the entries
    outside the list are nil.  Only the list is copied: a choice that is a
    dict is in the table as the caller's own object. *)
Theorem choices_table_counts_from_one self w env cm w1 cs d :
  prepare self w = Ret (env, cm) w1 ->
  node_choices self w cs ->
  py_items (player_data self) w = Ret d w ->
  d !! "choices" = None ->
  env_get w1 env "choices" = LTable (S env) /\
  exists t,
    lua_heap w1 !! S env = Some t /\
    (forall i c, cs !! i = Some c ->
       py_to_lua c = Some (tbl_get t (LInt (Z.of_nat i + 1)))) /\
    (forall i lc, cs !! i = Some (PyRef lc) ->
       tbl_get t (LInt (Z.of_nat i + 1)) = LPyObj lc) /\
    (forall j, (j < 1 \/ Z.of_nat (length cs) < j)%Z -> tbl_get t (LInt j) = LNil).
Proof.
  intros Hp (ln & nd & Hc & Hnd & _ & _ & Hch) Hd Hno.
  apply prepare_Ret_node in Hp
    as (l' & nd' & G & url_l & desc_l & d' & ids & env4 & ctbl & Hc' & Hnd' & HG & -> &
        Hu & Hde & Htf & Hd' & Hids & Hip & -> & ->).
  rewrite Hc in Hc'. injection Hc' as <-. rewrite Hnd in Hnd'. injection Hnd' as <-.
  rewrite Hd in Hd'. injection Hd' as <-.
  assert (table_from_seq 1 cs ∅ = Some ctbl) as Hseq.
  { destruct (nd !! "choices") as [[| | | |lcs| |]|]; try done.
    - simpl in Htf. rewrite Hch in Htf. by apply lift_opt_Ret in Htf as [-> _].
    - subst cs. by injection Htf as <-. }
  pose proof (table_from_seq_get _ _ _ _ Hseq) as Hget.
  split.
  - unfold env_get. simpl. rewrite lookup_app_r by done. rewrite Nat.sub_diag. simpl.
    rewrite set_flags_get.
    rewrite bool_decide_eq_false_2
      by (apply reserved_not_flag, elem_of_app; right;
          rewrite !elem_of_cons; tauto).
    rewrite (inject_player_get _ _ _ Hip), Hno.
    unfold context_env. apply tbl_get_set_eq.
  - exists ctbl. split; [|split; [|split]].
    + simpl. rewrite lookup_app_r by (simpl; lia).
      by replace (S (length (lua_heap w)) - length (lua_heap w))%nat with 1%nat by lia.
    + intros i c Hi. rewrite Hget.
      pose proof (lookup_lt_Some _ _ _ Hi) as Hlt.
      rewrite bool_decide_eq_true_2 by lia.
      replace (Z.to_nat (Z.of_nat i + 1 - 1)) with i by lia. rewrite Hi. simpl.
      destruct (py_to_lua c) as [v|] eqn:Hv; [done|].
      exfalso. clear -Hseq Hi Hv.
      revert Hseq. generalize 1%Z (∅ : LuaTable). revert i Hi.
      induction cs as [|x xs IH]; intros i Hi z t Hseq; [done|].
      simpl in Hseq. destruct i as [|i]; simpl in Hi.
      * injection Hi as ->. by rewrite Hv in Hseq.
      * destruct (py_to_lua x); [|done]. by eapply IH.
    + intros i lc Hi. rewrite Hget.
      pose proof (lookup_lt_Some _ _ _ Hi) as Hlt.
      rewrite bool_decide_eq_true_2 by lia.
      replace (Z.to_nat (Z.of_nat i + 1 - 1)) with i by lia. by rewrite Hi.
    + intros j Hj. rewrite Hget. rewrite bool_decide_eq_false_2 by lia.
      apply tbl_get_empty.
Qed.

Lemma choices_table_counts_from_one_witness :
  exists env cm w1 t,
    prepare forest_sandbox (new_world forest_heap) = Ret (env, cm) w1 /\
    env_get w1 env "choices" = LTable (S env) /\
    lua_heap w1 !! S env = Some t /\
    tbl_get t (LInt 1) = LPyObj 2 /\
    tbl_get t (LInt 2) = LPyObj 3 /\
    tbl_get t (LInt 0) = LNil /\
    tbl_get t (LInt 3) = LNil.
Proof.
  run_prepare forest_sandbox (new_world forest_heap).
  destruct (choices_table_counts_from_one forest_sandbox (new_world forest_heap)
              env cm w1 [PyRef 2; PyRef 3] {[ "energy" := PyInt 20 ]} Hp)
    as (Henv & t & Ht & _ & Href & Hout).
  - exists 0%nat, {[ "url" := PyStr "https://forest.com";
                     "description" := PyStr "The trees whisper.";
                     "choices" := PyRef 1 ]}.
    split; [reflexivity|]. split; [reflexivity|].
    split; [eexists; reflexivity|]. split; [eexists; reflexivity|]. reflexivity.
  - reflexivity.
  - reflexivity.
  - exists env, cm, w1, t. split; [reflexivity|]. split; [exact Henv|].
    split; [exact Ht|]. split; [|split; [|split]].
    + exact (Href 0%nat 2%nat eq_refl).
    + exact (Href 1%nat 3%nat eq_refl).
    + apply Hout. simpl. lia.
    + apply Hout. simpl. lia.
Defined.

(** ** Objects out of a script's reach *)

Lemma py_hidden_lua lp w r t k :
  py_hidden lp w -> lua_heap w !! r = Some t -> tbl_get t k ≠ LPyObj lp.
Proof.
  intros [Hl _] Hr. pose proof (Forall_lookup_1 _ _ _ _ Hl Hr) as Ht.
  unfold tbl_get. destruct (t !! k) as [v|] eqn:Hk; [|done].
  exact (map_Forall_lookup_1 _ _ _ _ Ht Hk).
Qed.

Lemma py_hidden_dict lp w l d k v :
  py_hidden lp w -> py_heap w !! l = Some (PyDict d) -> d !! k = Some v -> v ≠ PyRef lp.
Proof.
  intros [_ Hp] Hl Hk. pose proof (Forall_lookup_1 _ _ _ _ Hp Hl) as Hd.
  exact (map_Forall_lookup_1 _ _ _ _ Hd Hk).
Qed.

Lemma py_hidden_list lp w l xs :
  py_hidden lp w -> py_heap w !! l = Some (PyList xs) -> Forall (fun v => v ≠ PyRef lp) xs.
Proof. intros [_ Hp] Hl. exact (Forall_lookup_1 _ _ _ _ Hp Hl). Qed.

Lemma py_hidden_same_heaps lp w w' : same_heaps w w' -> py_hidden lp w -> py_hidden lp w'.
Proof. intros [Hl Hp] [H1 H2]. split; [by rewrite Hl|by rewrite Hp]. Qed.

Lemma tbl_set_avoids (P : LuaVal -> Prop) (t : LuaTable) k v :
  map_Forall (fun _ x => P x) t -> P v -> map_Forall (fun _ x => P x) (tbl_set t k v).
Proof.
  intros Ht Hv. unfold tbl_set.
  destruct v; try (by apply map_Forall_insert_2).
  by apply map_Forall_delete.
Qed.

Lemma py_hidden_set_table lp w r t k v :
  py_hidden lp w -> lua_heap w !! r = Some t -> v ≠ LPyObj lp ->
  py_hidden lp (set_lua_heap (<[r := tbl_set t k v]> (lua_heap w)) w).
Proof.
  intros [Hl Hp] Hr Hv. split; [|exact Hp]. simpl.
  apply Forall_insert; [exact Hl|].
  apply (tbl_set_avoids (fun x => x ≠ LPyObj lp)); [|exact Hv].
  exact (Forall_lookup_1 _ _ _ _ Hl Hr).
Qed.

Lemma py_hidden_set_dict lp w l d s v :
  py_hidden lp w -> py_heap w !! l = Some (PyDict d) -> v ≠ PyRef lp ->
  py_hidden lp (set_py_heap (<[l := PyDict (<[s := v]> d)]> (py_heap w)) w).
Proof.
  intros [Hl Hp] Hd Hv. split; [exact Hl|]. simpl.
  apply Forall_insert; [exact Hp|]. simpl.
  apply map_Forall_insert_2; [exact Hv|].
  exact (Forall_lookup_1 _ _ _ _ Hp Hd).
Qed.

Lemma py_to_lua_obj v l : py_to_lua v = Some (LPyObj l) -> v = PyRef l.
Proof.
  destruct v; simpl; try discriminate.
  - destruct (lua_Integer_range n); discriminate.
  - by intros [= ->].
Qed.

Lemma py_from_lua_obj v l : py_from_lua v = PyRef l -> v = LPyObj l.
Proof. destruct v; simpl; try discriminate. by intros [= ->]. Qed.

Lemma index_hidden lp b k w :
  py_hidden lp w ->
  match MiniLua.index b k w with
  | MiniLua.LOk v w' => w' = w /\ v ≠ LPyObj lp
  | MiniLua.LErr _ w' => w' = w
  | MiniLua.LUnsup => True
  end.
Proof.
  intros Hh. unfold MiniLua.index. destruct b; try done.
  - destruct (lua_heap w !! r) as [t|] eqn:Ht; [|done].
    split; [done|]. by eapply py_hidden_lua.
  - destruct (py_heap w !! l) as [[d|]|] eqn:Hd; try done.
    destruct k; try done.
    destruct (d !! s) as [pv|] eqn:Hs; [|done].
    destruct (py_to_lua pv) as [lv|] eqn:Hlv; [|done].
    split; [done|]. intros ->. apply py_to_lua_obj in Hlv as ->.
    by eapply py_hidden_dict.
Qed.

Lemma call_hidden lp f args w :
  match MiniLua.call f args w with
  | MiniLua.LOk v w' => same_heaps w w' /\ v ≠ LPyObj lp
  | MiniLua.LErr _ w' => w' = w
  | MiniLua.LUnsup => True
  end.
Proof.
  unfold MiniLua.call. destruct f; try done.
  destruct (decide (name = "print")) as [->|Hp].
  { destruct (mapM MiniLua.tostring args); [|done]. split; [by split|done]. }
  destruct (decide (name = "tostring")) as [->|Ht].
  { destruct args as [|a args]; [done|].
    destruct (MiniLua.tostring a); [|done]. split; [by split|done]. }
  repeat (destruct name as [|[[] [] [] [] [] [] [] []] name]; try done).
Qed.

Lemma binary_hidden lp op a b w :
  match MiniLua.binary op a b w with
  | MiniLua.LOk v w' => w' = w /\ v ≠ LPyObj lp
  | MiniLua.LErr _ w' => w' = w
  | MiniLua.LUnsup => True
  end.
Proof.
  unfold MiniLua.binary.
  destruct op, a, b; simpl; try done;
    repeat match goal with
           | |- context [if ?c then _ else _] => destruct c
           end; done.
Qed.

Lemma eval_hidden lp env e : forall w,
  py_hidden lp w ->
  match MiniLua.eval e env w with
  | MiniLua.LOk v w' => same_heaps w w' /\ v ≠ LPyObj lp
  | MiniLua.LErr _ w' => same_heaps w w'
  | MiniLua.LUnsup => True
  end.
Proof.
  induction e as [|b|n|s|x|e k IHe IHk|f args IHf IHargs|op a b IHa IHb
                  |a b IHa IHb|a b IHa IHb|a IHa|a IHa] using expr_ind_args;
    intros w Hh.
  - split; [apply same_heaps_refl|done].
  - split; [apply same_heaps_refl|done].
  - simpl. destruct (lua_Integer_range n); [|done].
    split; [apply same_heaps_refl|done].
  - split; [apply same_heaps_refl|done].
  - simpl. destruct (lua_heap w !! env) as [t|] eqn:Ht; [|done].
    split; [apply same_heaps_refl|]. by eapply py_hidden_lua.
  - simpl. specialize (IHe w Hh).
    destruct (MiniLua.eval e env w) as [bv w1|ve w1|]; simpl; [|done|done].
    destruct IHe as [H1 _]. pose proof (py_hidden_same_heaps _ _ _ H1 Hh) as Hh1.
    specialize (IHk w1 Hh1).
    destruct (MiniLua.eval k env w1) as [kv w2|ve w2|]; simpl;
      [|by eapply same_heaps_trans|done].
    destruct IHk as [H2 _]. pose proof (py_hidden_same_heaps _ _ _ H2 Hh1) as Hh2.
    pose proof (index_hidden lp bv kv w2 Hh2) as Hi.
    destruct (MiniLua.index bv kv w2) as [v w3|ve w3|]; [| |done].
    + destruct Hi as [-> Hv]. split; [by eapply same_heaps_trans|done].
    + subst w3. by eapply same_heaps_trans.
  - rewrite eval_ECall. specialize (IHf w Hh).
    destruct (MiniLua.eval f env w) as [fv w1|ve w1|]; simpl; [|done|done].
    destruct IHf as [H1 _]. pose proof (py_hidden_same_heaps _ _ _ H1 Hh) as Hh1.
    assert (forall w1, py_hidden lp w1 ->
              match eval_args env args w1 with
              | MiniLua.LOk _ w2 | MiniLua.LErr _ w2 => same_heaps w1 w2
              | MiniLua.LUnsup => True
              end) as Hargs.
    { clear -IHargs. induction IHargs as [|a args Ha _ IH]; intros w1 Hh1.
      - apply same_heaps_refl.
      - simpl. specialize (Ha w1 Hh1).
        destruct (MiniLua.eval a env w1) as [v wa|ve wa|]; simpl; [|done|done].
        destruct Ha as [Hs _].
        specialize (IH wa (py_hidden_same_heaps _ _ _ Hs Hh1)).
        destruct (eval_args env args wa) as [vs wb|ve wb|]; simpl; [| |done];
          by eapply same_heaps_trans. }
    specialize (Hargs w1 Hh1).
    destruct (eval_args env args w1) as [avs w2|ve w2|]; simpl;
      [|by eapply same_heaps_trans|done].
    pose proof (call_hidden lp fv avs w2) as Hc.
    destruct (MiniLua.call fv avs w2) as [v w3|ve w3|]; [| |done].
    + destruct Hc as [H3 Hv]. split; [|done].
      eapply same_heaps_trans; [exact H1|]. by eapply same_heaps_trans.
    + subst w3. by eapply same_heaps_trans.
  - simpl. specialize (IHa w Hh).
    destruct (MiniLua.eval a env w) as [va w1|ve w1|]; simpl; [|done|done].
    destruct IHa as [H1 _]. pose proof (py_hidden_same_heaps _ _ _ H1 Hh) as Hh1.
    specialize (IHb w1 Hh1).
    destruct (MiniLua.eval b env w1) as [vb w2|ve w2|]; simpl;
      [|by eapply same_heaps_trans|done].
    destruct IHb as [H2 _].
    pose proof (binary_hidden lp op va vb w2) as Hb.
    destruct (MiniLua.binary op va vb w2) as [v w3|ve w3|]; [| |done].
    + destruct Hb as [-> Hv]. split; [by eapply same_heaps_trans|done].
    + subst w3. by eapply same_heaps_trans.
  - simpl. specialize (IHa w Hh).
    destruct (MiniLua.eval a env w) as [va w1|ve w1|]; simpl; [|done|done].
    destruct IHa as [H1 Hva]. pose proof (py_hidden_same_heaps _ _ _ H1 Hh) as Hh1.
    destruct (MiniLua.truthy va); [|done].
    specialize (IHb w1 Hh1).
    destruct (MiniLua.eval b env w1) as [vb w2|ve w2|]; [| |done].
    + destruct IHb as [H2 Hvb]. split; [by eapply same_heaps_trans|done].
    + by eapply same_heaps_trans.
  - simpl. specialize (IHa w Hh).
    destruct (MiniLua.eval a env w) as [va w1|ve w1|]; simpl; [|done|done].
    destruct IHa as [H1 Hva]. pose proof (py_hidden_same_heaps _ _ _ H1 Hh) as Hh1.
    destruct (MiniLua.truthy va); [done|].
    specialize (IHb w1 Hh1).
    destruct (MiniLua.eval b env w1) as [vb w2|ve w2|]; [| |done].
    + destruct IHb as [H2 Hvb]. split; [by eapply same_heaps_trans|done].
    + by eapply same_heaps_trans.
  - simpl. specialize (IHa w Hh).
    destruct (MiniLua.eval a env w) as [va w1|ve w1|]; simpl; [|done|done].
    destruct IHa as [H1 _]. done.
  - simpl. specialize (IHa w Hh).
    destruct (MiniLua.eval a env w) as [va w1|ve w1|]; simpl; [|done|done].
    destruct IHa as [H1 _].
    destruct va; simpl; try done.
Qed.

Lemma setindex_hidden lp tv kv v w :
  py_hidden lp w -> tv ≠ LPyObj lp -> v ≠ LPyObj lp ->
  match MiniLua.setindex tv kv v w with
  | MiniLua.LOk _ w' => py_hidden lp w' /\ py_heap w' !! lp = py_heap w !! lp
  | MiniLua.LErr _ w' => w' = w
  | MiniLua.LUnsup => True
  end.
Proof.
  intros Hh Htv Hv. unfold MiniLua.setindex. destruct tv; try done.
  - destruct (lua_heap w !! r) as [t|] eqn:Ht; [|done].
    destruct kv; try done; (split; [by apply py_hidden_set_table|done]).
  - destruct (py_heap w !! l) as [[d|]|] eqn:Hd; try done.
    destruct kv; try done. split.
    + apply py_hidden_set_dict; [done|done|].
      intros Hx. by apply py_from_lua_obj in Hx.
    + simpl. apply list_lookup_insert_ne. congruence.
Qed.

#[local] Opaque MiniLua.exec_block MiniLua.exec_stat.

(** A run leaves alone every Python object that nothing within its reach
    refers to, also when it ends with an error. *)
Lemma exec_hidden lp env fuel :
  (forall b w, py_hidden lp w ->
     match MiniLua.exec_block fuel b env w with
     | MiniLua.SOk w' | MiniLua.SErr _ w' =>
         py_hidden lp w' /\ py_heap w' !! lp = py_heap w !! lp
     | _ => True
     end) /\
  (forall s w, py_hidden lp w ->
     match MiniLua.exec_stat fuel s env w with
     | MiniLua.SOk w' | MiniLua.SErr _ w' =>
         py_hidden lp w' /\ py_heap w' !! lp = py_heap w !! lp
     | _ => True
     end).
Proof.
  assert (forall w w', py_hidden lp w -> same_heaps w w' ->
            py_hidden lp w' /\ py_heap w' !! lp = py_heap w !! lp) as Hsame.
  { intros w w' Hh Hs. split; [by eapply py_hidden_same_heaps|].
    destruct Hs as [_ ->]. done. }
  induction fuel as [|f [IHb IHs]]; [split; intros; done|].
  split.
  - intros b w Hh. rewrite exec_block_S. destruct b as [|s r]; [done|].
    specialize (IHs s w Hh).
    destruct (MiniLua.exec_stat f s env w) as [w1|v w1| |]; [|done|done|done].
    destruct IHs as [Hh1 H1]. specialize (IHb r w1 Hh1).
    destruct (MiniLua.exec_block f r env w1) as [w2|v w2| |]; [| |done|done];
      (destruct IHb as [Hh2 H2]; split; [done|congruence]).
  - intros s w Hh. rewrite exec_stat_S.
    destruct s as [x e|t k e|fn args|c th el|c body].
    + pose proof (eval_hidden lp env e w Hh) as He.
      destruct (MiniLua.eval e env w) as [v w1|ve w1|]; simpl; [|by apply Hsame|done].
      destruct He as [Hs Hv]. destruct (Hsame _ _ Hh Hs) as [Hh1 H1].
      destruct (lua_heap w1 !! env) as [t|] eqn:Ht; [|done].
      split; [by apply py_hidden_set_table|done].
    + pose proof (eval_hidden lp env t w Hh) as Ht.
      destruct (MiniLua.eval t env w) as [tv w1|ve w1|]; simpl; [|by apply Hsame|done].
      destruct Ht as [Hs1 Htv]. destruct (Hsame _ _ Hh Hs1) as [Hh1 H1].
      pose proof (eval_hidden lp env k w1 Hh1) as Hk.
      destruct (MiniLua.eval k env w1) as [kv w2|ve w2|]; simpl; [| |done].
      2:{ destruct (Hsame _ _ Hh1 Hk) as [Hh2 H2]. split; [done|congruence]. }
      destruct Hk as [Hs2 _]. destruct (Hsame _ _ Hh1 Hs2) as [Hh2 H2].
      pose proof (eval_hidden lp env e w2 Hh2) as He.
      destruct (MiniLua.eval e env w2) as [v w3|ve w3|]; simpl; [| |done].
      2:{ destruct (Hsame _ _ Hh2 He) as [Hh3 H3]. split; [done|congruence]. }
      destruct He as [Hs3 Hv]. destruct (Hsame _ _ Hh2 Hs3) as [Hh3 H3].
      pose proof (setindex_hidden lp tv kv v w3 Hh3 Htv Hv) as Hsi.
      destruct (MiniLua.setindex tv kv v w3) as [u w4|ve w4|]; simpl; [| |done].
      * destruct Hsi as [Hh4 H4]. split; [done|congruence].
      * subst w4. split; [done|congruence].
    + pose proof (eval_hidden lp env (MiniLua.ECall fn args) w Hh) as He.
      destruct (MiniLua.eval (MiniLua.ECall fn args) env w) as [v w1|ve w1|]; simpl;
        [|by apply Hsame|done].
      destruct He as [Hs _]. by apply Hsame.
    + pose proof (eval_hidden lp env c w Hh) as Hc.
      destruct (MiniLua.eval c env w) as [cv w1|ve w1|]; simpl; [|by apply Hsame|done].
      destruct Hc as [Hs _]. destruct (Hsame _ _ Hh Hs) as [Hh1 H1].
      specialize (IHb (if MiniLua.truthy cv then th else el) w1 Hh1).
      destruct (MiniLua.exec_block f (if MiniLua.truthy cv then th else el) env w1)
        as [w2|v w2| |]; [| |done|done];
        (destruct IHb as [Hh2 H2]; split; [done|congruence]).
    + pose proof (eval_hidden lp env c w Hh) as Hc.
      destruct (MiniLua.eval c env w) as [cv w1|ve w1|]; simpl; [|by apply Hsame|done].
      destruct Hc as [Hs _]. destruct (Hsame _ _ Hh Hs) as [Hh1 H1].
      destruct (MiniLua.truthy cv); [|done].
      specialize (IHb body w1 Hh1).
      destruct (MiniLua.exec_block f body env w1) as [w2|v w2| |]; [| |done|done].
      2:{ destruct IHb as [Hh2 H2]. split; [done|congruence]. }
      destruct IHb as [Hh2 H2].
      specialize (IHs (MiniLua.SWhile c body) w2 Hh2).
      destruct (MiniLua.exec_stat f (MiniLua.SWhile c body) env w2)
        as [w3|v w3| |]; [| |done|done];
        (destruct IHs as [Hh3 H3]; split; [done|congruence]).
Qed.

#[local] Transparent MiniLua.exec_block MiniLua.exec_stat.

Lemma tbl_all (P : LuaVal -> Prop) (t : LuaTable) :
  (forall k, P (tbl_get t k)) -> map_Forall (fun _ v => P v) t.
Proof.
  intros H k v Hk. specialize (H k). unfold tbl_get in H. by rewrite Hk in H.
Qed.

Lemma py_to_lua_avoids lp v lv : v ≠ PyRef lp -> py_to_lua v = Some lv -> lv ≠ LPyObj lp.
Proof. intros Hv Hlv ->. by apply py_to_lua_obj in Hlv. Qed.

Lemma table_from_seq_avoids lp xs : forall i t t',
  Forall (fun v => v ≠ PyRef lp) xs ->
  (forall k, tbl_get t k ≠ LPyObj lp) ->
  table_from_seq i xs t = Some t' ->
  forall k, tbl_get t' k ≠ LPyObj lp.
Proof.
  induction xs as [|x xs IH]; intros i t t' Hxs Ht; simpl.
  - by intros [= <-].
  - destruct (py_to_lua x) as [v|] eqn:Hx; [|discriminate].
    apply Forall_cons in Hxs as [Hx' Hxs]. apply IH; [done|].
    intros k. rewrite tbl_get_set. case_decide; [|done].
    by eapply py_to_lua_avoids.
Qed.

Lemma table_from_map_avoids lp d t' :
  map_Forall (fun _ v => v ≠ PyRef lp) d ->
  table_from_map d = Some t' ->
  forall k, tbl_get t' k ≠ LPyObj lp.
Proof.
  unfold table_from_map. revert t'.
  pose (P := fun (acc : option LuaTable) (m : gmap string PyVal) =>
    forall t', map_Forall (fun _ v => v ≠ PyRef lp) m -> acc = Some t' ->
    forall k, tbl_get t' k ≠ LPyObj lp).
  enough (P (map_fold (fun k v acc =>
              match acc, py_to_lua v with
              | Some t, Some lv => Some (tbl_set t (LStr k) lv)
              | _, _ => None
              end) (Some ∅) d) d) as H by exact H.
  apply map_fold_weak_ind; unfold P; clear P.
  - intros t' _ [= <-] k. by rewrite tbl_get_empty.
  - intros i x m r Hi IH t' Hall Hr k.
    destruct r as [t0|]; [|discriminate].
    destruct (py_to_lua x) as [lv|] eqn:Hx; [|discriminate].
    injection Hr as <-. apply map_Forall_insert in Hall as [Hx' Hm]; [|done].
    rewrite tbl_get_set. case_decide; [by eapply py_to_lua_avoids|by eapply IH].
Qed.

Lemma table_from_avoids lp o w t w' :
  py_hidden lp w ->
  table_from o w = Ret t w' ->
  forall k, tbl_get t k ≠ LPyObj lp.
Proof.
  intros Hh. unfold table_from. destruct o as [[]|]; try discriminate.
  - intros H. apply lift_opt_Ret in H as [H _].
    eapply table_from_seq_avoids; [| |exact H].
    + unfold chars_of. apply Forall_fmap, Forall_forall. by intros c _.
    + intros k. by rewrite tbl_get_empty.
  - destruct (py_heap w !! l) as [[d|xs]|] eqn:Hl; try discriminate.
    + intros H. apply lift_opt_Ret in H as [H _].
      eapply table_from_map_avoids; [|exact H].
      exact (Forall_lookup_1 _ _ _ _ (proj2 Hh) Hl).
    + intros H. apply lift_opt_Ret in H as [H _].
      eapply table_from_seq_avoids; [| |exact H].
      * by eapply py_hidden_list.
      * intros k. by rewrite tbl_get_empty.
  - intros [= <- _] k. by rewrite tbl_get_empty.
Qed.

(** The injection puts within a script's reach only what the node and the
    player data hold. *)
Lemma prepared_hidden lp self w env cm w1 :
  py_hidden lp w ->
  prepare self w = Ret (env, cm) w1 ->
  py_hidden lp w1 /\ py_heap w1 = py_heap w.
Proof.
  intros Hh Hp.
  apply prepare_Ret_node in Hp
    as (l & nd & G & url_l & desc_l & d & ids & env4 & ctbl & Hc & Hnd & HG & -> &
        Hu & Hde & Htf & Hd & Hids & Hip & -> & ->).
  split; [|done].
  split; [|exact (proj2 Hh)]. simpl.
  apply Forall_app. split; [exact (proj1 Hh)|].
  apply py_items_Ret in Hd as (_ & pl & _ & Hpl).
  assert (forall v lv, py_to_lua (default (PyStr "") v) = Some lv ->
            (forall x, v = Some x -> x ≠ PyRef lp) -> lv ≠ LPyObj lp) as Hdef.
  { intros v lv Hlv Hv. eapply py_to_lua_avoids; [|exact Hlv].
    destruct v as [x|]; simpl; [by apply Hv|done]. }
  constructor; [|constructor; [|constructor]].
  - apply tbl_all. intros k. rewrite set_flags_get. case_bool_decide; [done|].
    assert (forall k, tbl_get (white_room G) k ≠ LPyObj lp) as Hwr.
    { intros k'.
      destruct k' as [| | |s| | |];
        try (rewrite white_room_get_other; [done|discriminate]).
      rewrite white_room_get. case_bool_decide; [|done].
      by eapply py_hidden_lua. }
    assert (forall k, tbl_get (context_env G url_l desc_l (length (lua_heap w))) k
                      ≠ LPyObj lp) as Hctx.
    { intros k'. unfold context_env. rewrite !tbl_get_set. repeat case_decide.
      - done.
      - apply (Hdef _ _ Hde). intros x Hx.
        exact (py_hidden_dict _ _ _ _ _ _ Hh Hnd Hx).
      - apply (Hdef _ _ Hu). intros x Hx.
        exact (py_hidden_dict _ _ _ _ _ _ Hh Hnd Hx).
      - apply Hwr. }
    rewrite (inject_player_get _ _ _ Hip).
    destruct k as [| | |s| | |]; try apply Hctx.
    destruct (d !! s) as [v|] eqn:Hs; [|apply Hctx].
    destruct (inject_player_values _ _ _ Hip _ _ Hs) as [lv Hlv]. rewrite Hlv. simpl.
    eapply py_to_lua_avoids; [|exact Hlv].
    exact (py_hidden_dict _ _ _ _ _ _ Hh Hpl Hs).
  - apply tbl_all. by eapply table_from_avoids.
Qed.

(** X19. A script reaches the caller's data only through the values that
    were injected.  A Python object that no table of the runtime and no
    dict or list holds (the player data dict itself, the node dict itself)
    is the same after the call as before, whether the call returns a result
    or [None]. *)
Theorem unreachable_objects_are_left_alone fuel self script w r w' lp :
  py_hidden lp w ->
  execute (MiniLua.interp fuel) self script w = Ret r w' ->
  py_heap w' !! lp = py_heap w !! lp.
Proof.
  intros Hh. unfold execute, mbind, M_bind.
  destruct (prepare self w) as [[env cm] w1| | |] eqn:Hp; try discriminate.
  destruct (prepared_hidden lp _ _ _ _ _ Hh Hp) as [Hh1 Hpy]. rewrite <- Hpy.
  unfold run_wrapper, safe_wrapper. simpl.
  destruct (MiniLua.load script) as [c|err|]; [| |discriminate].
  - unfold MiniLua.pcall.
    pose proof (proj1 (exec_hidden lp env fuel) c w1 Hh1) as Hex.
    destruct (MiniLua.exec_block fuel c env w1) as [w2|v w2| |]; try discriminate.
    + destruct Hex as [_ <-]. intros Hx.
      by apply (keeps_world_Ret _ _ _ _ (keeps_world_extract self env cm)) in Hx as ->.
    + destruct Hex as [_ <-]. by intros [= _ <-].
  - by intros [= _ <-].
Qed.

Lemma unreachable_objects_are_left_alone_witness :
  exists r w',
    execute (MiniLua.interp 8) forest_sandbox rewriting_script (new_world forest_heap)
      = Ret r w' /\
    py_heap w' !! 4%nat = py_heap (new_world forest_heap) !! 4%nat.
Proof.
  compute_eq (returns (execute (MiniLua.interp 8) forest_sandbox rewriting_script
                         (new_world forest_heap))) Hr.
  destruct (execute (MiniLua.interp 8) forest_sandbox rewriting_script
              (new_world forest_heap)) as [r w'| | |] eqn:Hex; try discriminate Hr.
  exists r, w'. split; [reflexivity|].
  apply (unreachable_objects_are_left_alone 8 forest_sandbox rewriting_script
           (new_world forest_heap) r w' 4%nat); [|exact Hex].
  apply (bool_decide_unpack _). vm_compute. exact I.
Defined.

(** ** Results and failures on inputs of the expected shape *)

Lemma setindex_tables tv kv v w u w' :
  MiniLua.setindex tv kv v w = MiniLua.LOk u w' ->
  length (lua_heap w') = length (lua_heap w).
Proof.
  destruct u. unfold MiniLua.setindex. destruct tv; try discriminate.
  - destruct (lua_heap w !! r) as [t|]; [|discriminate].
    destruct kv; try discriminate; intros [= <-]; simpl; apply length_insert.
  - destruct (py_heap w !! l) as [[d|]|]; try discriminate.
    destruct kv; try discriminate. by intros [= <-].
Qed.

#[local] Opaque MiniLua.exec_block MiniLua.exec_stat.

(** A run creates no table and drops none. *)
Lemma exec_tables env fuel :
  (forall b w w', MiniLua.exec_block fuel b env w = MiniLua.SOk w' ->
                  length (lua_heap w') = length (lua_heap w)) /\
  (forall s w w', MiniLua.exec_stat fuel s env w = MiniLua.SOk w' ->
                  length (lua_heap w') = length (lua_heap w)).
Proof.
  assert (forall e w v w', MiniLua.eval e env w = MiniLua.LOk v w' ->
            length (lua_heap w') = length (lua_heap w)) as Heval.
  { intros e w v w' He. apply eval_same_heaps in He as [-> _]. done. }
  induction fuel as [|f [IHb IHs]]; [split; intros; discriminate|].
  split.
  - intros b w w'. rewrite exec_block_S. destruct b as [|s r].
    + by intros [= <-].
    + destruct (MiniLua.exec_stat f s env w) as [w1| | |] eqn:Es; try discriminate.
      intros Er. rewrite (IHb _ _ _ Er). by eapply IHs.
  - intros s w w'. rewrite exec_stat_S.
    destruct s as [x e|t k e|fn args|c th el|c body].
    + destruct (MiniLua.eval e env w) as [v w1| |] eqn:Ee; try discriminate. simpl.
      apply Heval in Ee.
      destruct (lua_heap w1 !! env) as [t|]; [|discriminate].
      intros [= <-]. simpl. by rewrite length_insert.
    + destruct (MiniLua.eval t env w) as [tv w1| |] eqn:Et; try discriminate. simpl.
      apply Heval in Et.
      destruct (MiniLua.eval k env w1) as [kv w2| |] eqn:Ek; try discriminate. simpl.
      apply Heval in Ek.
      destruct (MiniLua.eval e env w2) as [v w3| |] eqn:Ee; try discriminate. simpl.
      apply Heval in Ee.
      destruct (MiniLua.setindex tv kv v w3) as [u w4| |] eqn:Esi; try discriminate.
      simpl. intros [= <-]. apply setindex_tables in Esi. congruence.
    + destruct (MiniLua.eval (MiniLua.ECall fn args) env w) as [v w1| |] eqn:Ee;
        try discriminate. simpl. intros [= <-]. by apply Heval in Ee.
    + destruct (MiniLua.eval c env w) as [cv w1| |] eqn:Ec; try discriminate. simpl.
      apply Heval in Ec. intros Eb. rewrite (IHb _ _ _ Eb). done.
    + destruct (MiniLua.eval c env w) as [cv w1| |] eqn:Ec; try discriminate. simpl.
      apply Heval in Ec.
      destruct (MiniLua.truthy cv).
      * destruct (MiniLua.exec_block f body env w1) as [w2| | |] eqn:Eb; try discriminate.
        intros Ew. rewrite (IHs _ _ _ Ew), (IHb _ _ _ Eb). done.
      * by intros [= <-].
Qed.

#[local] Transparent MiniLua.exec_block MiniLua.exec_stat.

(** X20. On inputs of the expected shape [execute] returns a result record
    exactly when the script loads and runs to its end, and then it leaves
    the world as the script left it: the extraction cannot fail and prints
    nothing. *)
Theorem result_exactly_when_the_script_ends fuel self script w env cm w1 w' :
  well_shaped self w ->
  prepare self w = Ret (env, cm) w1 ->
  (exists r, execute (MiniLua.interp fuel) self script w = Ret (Some r) w') <->
  (exists c, MiniLua.load script = Loaded c /\
             MiniLua.exec_block fuel c env w1 = MiniLua.SOk w').
Proof.
  intros Hws Hp. split.
  - intros [r Hex].
    apply execute_Some in Hex as (env' & cm' & w1' & t & d & Hp' & Hwrap & _).
    rewrite Hp in Hp'. injection Hp' as <- <- <-.
    unfold safe_wrapper in Hwrap. simpl in Hwrap.
    destruct (MiniLua.load script) as [c|err|]; try discriminate.
    exists c. split; [done|].
    unfold MiniLua.pcall in Hwrap.
    destruct (MiniLua.exec_block fuel c env w1) as [w2|v w2| |]; try discriminate.
    by injection Hwrap as ->.
  - intros (c & Hload & Hrun).
    unfold execute, mbind, M_bind. rewrite Hp.
    unfold run_wrapper, safe_wrapper. simpl. rewrite Hload.
    unfold MiniLua.pcall. rewrite Hrun.
    pose proof (proj1 (exec_same_kinds env fuel) _ _ _ Hrun) as Hk.
    pose proof (proj1 (exec_tables env fuel) _ _ _ Hrun) as Hlen.
    destruct Hws as (_ & _ & d & lp & Hpd & Hlp & _).
    destruct (prepared_env _ _ _ _ _ Hp)
      as (G & url_l & desc_l & d0 & ids & env4 & _ & _ & _ & _ & Ht & Hpy & _).
    specialize (Hk lp). rewrite Hpy, Hlp in Hk. destruct Hk as [d' Hd'].
    destruct (lookup_lt_is_Some_2 (lua_heap w') env) as [t' Ht'].
    { rewrite Hlen. by eapply lookup_lt_Some. }
    unfold extract, mbind, M_bind, get_world. rewrite Ht'. simpl.
    unfold py_items. rewrite Hpd, Hd'. by eexists.
Qed.

Lemma result_exactly_when_the_script_ends_witness :
  exists env cm w1,
    prepare forest_sandbox (new_world forest_heap) = Ret (env, cm) w1 /\
    forall w',
      (exists r, execute (MiniLua.interp 8) forest_sandbox "energy = energy + 10"
                   (new_world forest_heap) = Ret (Some r) w') <->
      (exists c, MiniLua.load "energy = energy + 10" = Loaded c /\
                 MiniLua.exec_block 8 c env w1 = MiniLua.SOk w').
Proof.
  run_prepare forest_sandbox (new_world forest_heap).
  exists env, cm, w1. split; [reflexivity|]. intros w'.
  apply (result_exactly_when_the_script_ends 8 forest_sandbox "energy = energy + 10"
           (new_world forest_heap) env cm w1 w'); [|exact Hp].
  forest_shape.
Defined.

Lemma inject_choices_not_a_dict w pre c post : forall cm env,
  Forall (choice_record w) pre ->
  not_a_dict w c ->
  inject_choices (pre ++ c :: post) cm env w = Raise TypeError w.
Proof.
  induction pre as [|c0 pre IH]; intros cm env Hpre Hc; simpl.
  - unfold mbind, M_bind, py_getitem_id.
    destruct c; simpl in Hc; try done. by destruct Hc as [xs ->].
  - apply Forall_cons in Hpre as [(lc & dc & s & -> & Hlc & Hid) Hpre].
    unfold mbind, M_bind, py_getitem_id at 1. rewrite Hlc, Hid.
    by apply IH.
Qed.

(** X21. A choice that is not a dict (None, a number, a string, a list)
    makes the call raise TypeError at [choice['id']], whatever the script
    is: the choices before it do not help and no result is returned. *)
Theorem choice_not_a_dict_raises (L : LuaInterp) self script w pre c post d :
  is_Some (lua_heap w !! 0%nat) ->
  node_choices self w (pre ++ c :: post) ->
  Forall (choice_record w) pre ->
  not_a_dict w c ->
  fits_lua c ->
  Forall fits_lua post ->
  player_vars self w d ->
  execute L self script w = Raise TypeError w.
Proof.
  intros HG Hn Hpre Hc Hfit Hpost Hd.
  apply (execute_prepare_Raise L self script w TypeError w).
  assert (Forall fits_lua (pre ++ c :: post)) as Hfits.
  { apply Forall_app. split; [by apply (choice_record_fits w)|].
    by apply Forall_cons. }
  destruct (prepare_shaped self w _ d HG Hn Hfits Hd) as (env4 & ctbl & ->).
  by rewrite (inject_choices_not_a_dict w pre c post ∅ env4 Hpre Hc).
Qed.

Lemma choice_not_a_dict_raises_witness :
  execute (MiniLua.interp 8) string_choice_sandbox "energy = 1"
          (new_world string_choice_heap)
  = Raise TypeError (new_world string_choice_heap).
Proof.
  apply (choice_not_a_dict_raises (MiniLua.interp 8) string_choice_sandbox "energy = 1"
           (new_world string_choice_heap) [] (PyStr "go") [] ∅).
  - eexists. reflexivity.
  - exists 0%nat, {[ "choices" := PyRef 1 ]}.
    split; [reflexivity|]. split; [reflexivity|].
    split; [eexists; reflexivity|]. split; [eexists; reflexivity|].
    reflexivity.
  - constructor.
  - exact I.
  - eexists. reflexivity.
  - constructor.
  - exists 2%nat. split; [reflexivity|]. split; [reflexivity|].
    apply map_Forall_empty.
Defined.
